(** * metwp: the retrieval / selection loop of [fetch.py]

    A shallow embedding of [src/fetch.py] (the [main] loop and
    [check_if_exists]) and the properties of the selection loop proved
    about it; the two collaborators the loop calls with a signature these
    sources do not hold are modelled from the spec.  Then [get_artwork]
    and [download_artwork] of [src/api/met.py] as they are written, over
    a service and a file system of their own.

    Python objects are modelled by a small universe of values, Python
    dictionaries by stdpp's [gmap], exceptions by an error monad, and the
    two nested [while] loops of [main] by a transition system whose
    states are the loop heads of the program. *)

From Stdlib Require Import ZArith Lia Ascii.
From stdpp Require Import gmap strings list pretty.

#[local] Set Warnings "-register-all".

(** ** Python values, dictionaries and exceptions *)

Module Py.

(** The JSON-shaped values a record of the collection API holds. *)
Inductive value : Type :=
| VNone
| VBool (b : bool)
| VInt (z : Z)
| VStr (s : string)
| VList (l : list value).

(** Dictionary keys up to Python's key identity: [True] and [1] (and
    [False] and [0]) are equal and hash alike, so they are one key; a
    string is never equal to a number or to [None]. *)
Inductive key : Type :=
| KNone
| KNum (z : Z)
| KStr (s : string).

#[export] Instance key_eq_dec : EqDecision key.
Proof. solve_decision. Defined.

Definition key_code (k : key) : unit + Z + string :=
  match k with
  | KNone => inl (inl tt)
  | KNum z => inl (inr z)
  | KStr s => inr s
  end.

Definition key_decode (c : unit + Z + string) : key :=
  match c with
  | inl (inl _) => KNone
  | inl (inr z) => KNum z
  | inr s => KStr s
  end.

#[export] Instance key_countable : Countable key.
Proof.
  apply (inj_countable' key_code key_decode).
  intros []; reflexivity.
Defined.

(** The key a boolean denotes: [hash(True) == hash(1)], [True == 1]. *)
Definition key_of_bool (b : bool) : key := KNum (Z.b2z b).

Abbreviation dict := (gmap key value).

(** [d.get(k)]: the value stored under [k], [None] when absent. *)
Definition get (d : dict) (k : key) : value := default VNone (d !! k).

(** [s == v] for a string literal [s]: only an equal string is equal. *)
Definition str_eq (s : string) (v : value) : bool :=
  match v with
  | VStr t => bool_decide (s = t)
  | _ => false
  end.

(** Truth value of an object in an [if]. *)
Definition truthy (v : value) : bool :=
  match v with
  | VNone => false
  | VBool b => b
  | VInt z => negb (z =? 0)%Z
  | VStr s => negb (bool_decide (s = ""))
  | VList l => match l with [] => false | _ => true end
  end.

Inductive exc : Type :=
| IndexError
| TypeError
| SystemExit (code : Z).

#[export] Instance exc_eq_dec : EqDecision exc.
Proof. solve_decision. Defined.

Inductive result (A : Type) : Type :=
| Ok (a : A)
| Raise (e : exc).
Arguments Ok {A} a.
Arguments Raise {A} e.

(** [len(v)]; integers, booleans and [None] have no length.  The loop
    only asks whether the length is 0. *)
Definition len (v : value) : result nat :=
  match v with
  | VStr s => Ok (String.length s)
  | VList l => Ok (length l)
  | _ => Raise TypeError
  end.

(** [l[i]] for a non-negative index. *)
Definition index {A} (l : list A) (i : nat) : result A :=
  match l !! i with
  | Some x => Ok x
  | None => Raise IndexError
  end.

(** [random.choice(seq)], which is [seq[randbelow(len(seq))]] and raises
    [IndexError] on an empty sequence.  The generator is an oracle:
    [r] is the raw draw, reduced below the length. *)
Definition choice {A} (seq : list A) (r : nat) : result A :=
  match seq with
  | [] => Raise IndexError
  | _ => index seq (r mod length seq)
  end.

(** Status the interpreter reports for a process ended by an exception
    that reached the top level: the code of a [SystemExit], and 1 (after
    a traceback) for any other exception. *)
Definition exit_status (e : exc) : Z :=
  match e with
  | SystemExit code => code
  | _ => 1%Z
  end.

End Py.

Import Py.

(** ** Constants of [fetch.py] *)

Definition NUM_RETRIES : nat := 3.
Definition FUZZY_SEARCH_THRESHOLD : nat := 20.

(** ** [check_if_exists]

    [for obj in objects: if obj.get("id" == obj_id): return True] and
    [return False] after the loop.  The argument of [get] is the value of
    the comparison ["id" == obj_id], a boolean. *)
Fixpoint check_if_exists (obj_id : value) (objects : list dict) : bool :=
  match objects with
  | [] => false
  | obj :: rest =>
      if truthy (get obj (key_of_bool (str_eq "id" obj_id))) then true
      else check_if_exists obj_id rest
  end.

(** A record whose keys are all strings, as a decoded JSON object is. *)
Definition string_keyed (d : dict) : Prop :=
  ∀ k, is_Some (d !! k) → ∃ s, k = KStr s.

(** ** The collaborators and the store of a run

    One attempt performs at most one random draw, one detail request and
    one image download, so the outside world is an oracle indexed by the
    serial number of the attempt (1 for the first attempt of the run). *)
Record world : Type := World {
  (** raw draw of the generator behind [choice] *)
  rand : nat → nat;
  (** decoded body of the detail request for an identifier; [None] when
      the request or its decoding raises *)
  fetch : nat → Z → option dict;
  (** whether downloading and writing the image succeeds *)
  save : nat → value → value → bool
}.

(** What the run writes to the terminal and asks of its collaborators. *)
Inductive event : Type :=
| EvFetch (object_id : Z)
| EvFetchError (object_id : Z)
| EvSkipMissing (artwork_id : value)
| EvSkipDownloaded (artwork_id : value)
| EvDownload (artwork_id image_url : value)
| EvDownloadError (artwork_id : value)
| EvPrintArtwork (artwork : dict)
| EvReport (art : list dict)
| EvSkipReport.

Record store : Type := Store {
  (** the list [viewed] of [main] *)
  viewed : list dict;
  (** number of attempts begun so far *)
  clock : nat;
  (** events so far, oldest first *)
  log : list event
}.

(** Computations of the loop body: state passing with exceptions; the
    store at the moment of a raise is kept. *)
Definition M (A : Type) : Type := store → result A * store.

Definition ret {A} (a : A) : M A := λ s, (Ok a, s).

Definition bind {A B} (m : M A) (k : A → M B) : M B :=
  λ s, match m s with
       | (Ok a, s') => k a s'
       | (Raise e, s') => (Raise e, s')
       end.

Notation "'let*' x ':=' m 'in' k" := (bind m (λ x, k))
  (at level 10, x pattern, m at level 100, k at level 200).
Notation "'do' m 'then' k" := (bind m (λ _, k))
  (at level 10, m at level 100, k at level 200).

Definition lift {A} (r : result A) : M A := λ s, (r, s).
Definition raise {A} (e : exc) : M A := lift (Raise e).
Definition get_viewed : M (list dict) := λ s, (Ok (viewed s), s).
Definition get_clock : M nat := λ s, (Ok (clock s), s).
Definition emit (ev : event) : M unit :=
  λ s, (Ok tt, Store (viewed s) (clock s) (log s ++ [ev])).
Definition append_viewed (artwork : dict) : M unit :=
  λ s, (Ok tt, Store (viewed s ++ [artwork]) (clock s) (log s)).
Definition tick : M unit :=
  λ s, (Ok tt, Store (viewed s) (S (clock s)) (log s)).

(** ** One attempt: the body of the inner [while] *)

(** Outcome of the [if] / [elif] / [else] on a fetched record. *)
Inductive verdict : Type :=
| NoImage
| Duplicate
| Accept.

#[export] Instance verdict_eq_dec : EqDecision verdict.
Proof. solve_decision. Defined.

(** How the body leaves: at its end, with the new value of [attempt], or
    through [break]. *)
Inductive exit : Type :=
| Next (attempt : nat)
| Break.

Section Run.

Variable w : world.
(** [args.random], [args.report], the identifiers [search_artwork]
    returned and the count [get_count_from_args] returned. *)
Variable random : bool.
Variable report : bool.
Variable object_ids : list Z.
Variable total_count : Z.

(** [object_ids[attempt] if not args.random
     else choice(object_ids[0:FUZZY_SEARCH_THRESHOLD])], with [r] the
    draw [choice] would use. *)
Definition select_candidate (attempt r : nat) : result Z :=
  if negb random then index object_ids attempt
  else choice (take FUZZY_SEARCH_THRESHOLD object_ids) r.

(** Modelled from the spec: the [get_artwork(object_id=...)] that
    [fetch.py] calls is missing from these sources ([api/met.py] holds
    [get_artwork(query, random)], which that call cannot reach).  From
    the spec's Artwork Source, [fetch(identifier) -> ArtworkRecord]: it
    returns the record of the identifier, and its failure "is reported
    and the process terminates with a non-zero status", exit code 1. *)
Definition get_artwork (object_id : Z) : M dict :=
  let* t := get_clock in
  do emit (EvFetch object_id) then
  match fetch w t object_id with
  | Some details_response_data => ret details_response_data
  | None =>
      do emit (EvFetchError object_id) then
      raise (SystemExit 1)
  end.

(** Modelled from the spec: the [download_artwork(object_id=...,
    image_url=..., location=...)] that [fetch.py] calls is missing from
    these sources ([api/met.py] holds [download_artwork(id, image_url,
    location)], which that call cannot reach).  From the spec's Image
    Sink, [save(identifier, imageBytes, directory) -> success |
    fatal-error]: an image-save failure is "reported to the user and the
    process terminates immediately with exit code 1". *)
Definition download_artwork (artwork_id image_url : value) : M unit :=
  let* t := get_clock in
  do emit (EvDownload artwork_id image_url) then
  if save w t artwork_id image_url then ret tt
  else
    do emit (EvDownloadError artwork_id) then
    raise (SystemExit 1).

(** [image_url is None or len(image_url) == 0] *)
Definition image_missing (image_url : value) : result bool :=
  match image_url with
  | VNone => Ok true
  | _ => match len image_url with
         | Ok n => Ok (Nat.eqb n 0)
         | Raise e => Raise e
         end
  end.

(** The decision of lines 127-144: the [if] / [elif] / [else] over the
    fetched record and the current [viewed]. *)
Definition filter_artwork (artwork : dict) : M verdict :=
  let image_url := get artwork (KStr "primaryImage") in
  let artwork_id := get artwork (KStr "objectID") in
  let* seen := get_viewed in
  let has_already_been_downloaded := check_if_exists artwork_id seen in
  let* missing := lift (image_missing image_url) in
  if missing then ret NoImage
  else if has_already_been_downloaded then ret Duplicate
  else ret Accept.

(** Lines 119-162: select, fetch, decide; on acceptance download, print,
    append and [break], otherwise print the skip and [attempt += 1].
    [get_save_location] only computes the directory handed to the
    download and [print_artwork] only prints; both live outside these
    sources and leave their trace in the events. *)
Definition body (attempt : nat) : M exit :=
  do tick then
  let* t := get_clock in
  let* object_id := lift (select_candidate attempt (rand w t)) in
  let* artwork := get_artwork object_id in
  let image_url := get artwork (KStr "primaryImage") in
  let artwork_id := get artwork (KStr "objectID") in
  let* v := filter_artwork artwork in
  match v with
  | NoImage =>
      do emit (EvSkipMissing artwork_id) then
      ret (Next (attempt + 1))
  | Duplicate =>
      do emit (EvSkipDownloaded artwork_id) then
      ret (Next (attempt + 1))
  | Accept =>
      do download_artwork artwork_id image_url then
      do emit (EvPrintArtwork artwork) then
      do append_viewed artwork then
      ret Break
  end.

(** ** The two loops of [main] as a transition system

    The control points are the tests of the two [while] statements, the
    statement [count += 1] that ends a slot, and the end of the process
    with the exception that ended it ([sys.exit(0)] raises
    [SystemExit(0)] too). *)
Inductive pc : Type :=
| OuterTest
| InnerTest
| SlotEnd
| Halted (e : exc).

Record config : Type := Config {
  at_pc : pc;
  count : nat;
  attempt : nat;
  mem : store
}.

(** [count = 0], [viewed = []], then the search; [attempt] is not bound
    before the first slot and is shown as 0. *)
Definition init : config := Config OuterTest 0 0 (Store [] 0 []).

(** After the outer loop: the report (the call of [generate_report] or the
    notice that it is skipped, recorded as an event), then
    [sys.exit(0)]. *)
Definition finish (s : store) : exc * store :=
  (SystemExit 0,
   Store (viewed s) (clock s)
         (log s ++ [if report then EvReport (viewed s) else EvSkipReport])).

Definition step (c : config) : config :=
  match at_pc c with
  | OuterTest =>
      (* while count < total_count: attempt = 0 *)
      if (Z.of_nat (count c) <? total_count)%Z
      then Config InnerTest (count c) 0 (mem c)
      else let '(e, s) := finish (mem c) in
           Config (Halted e) (count c) (attempt c) s
  | InnerTest =>
      (* while attempt < NUM_RETRIES: body *)
      if Nat.ltb (attempt c) NUM_RETRIES
      then match body (attempt c) (mem c) with
           | (Ok (Next a), s) => Config InnerTest (count c) a s
           | (Ok Break, s) => Config SlotEnd (count c) (attempt c) s
           | (Raise e, s) => Config (Halted e) (count c) (attempt c) s
           end
      else Config SlotEnd (count c) (attempt c) (mem c)
  | SlotEnd =>
      (* count += 1 *)
      Config OuterTest (count c + 1) (attempt c) (mem c)
  | Halted _ => c
  end.

Fixpoint run (fuel : nat) (c : config) : config :=
  match fuel with
  | 0 => c
  | S n => run n (step c)
  end.

(** Steps that are always enough: per slot, one test of the outer loop,
    at most [NUM_RETRIES] bodies and one failing test of the inner loop,
    and [count += 1]; then the last test of the outer loop. *)
Definition enough : nat :=
  Z.to_nat total_count * (NUM_RETRIES + 3) + 1.

Definition main : config := run enough init.

Inductive reachable : config → Prop :=
| reach_init : reachable init
| reach_step c : reachable c → reachable (step c).

(** The identifiers of the records in a list, as [main] reads them. *)
Definition identifiers (l : list dict) : list value :=
  (λ d, get d (KStr "objectID")) <$> l.

End Run.


(** ** [api/met.py] as it is written

    [get_artwork(query, random)] searches, selects and fetches inside one
    [try]; [download_artwork(id, image_url, location)] downloads and
    writes inside another.  Both end the process with [exit(1)] on any
    exception. *)

Module Met.

(** A decoded JSON body: an object, or any other value. *)
Inductive json : Type :=
| JObject (d : dict)
| JValue (v : value).

(** What the [except Exception as e] of a [try] can catch. *)
Inductive failure : Type :=
| Builtin (e : exc)
| KeyError (k : string)
  (** raised by [requests.get] or by [.json()] *)
| RequestError
  (** raised by [os.mkdir], [open], [write] or [close] *)
| OSError.

(** The statements inside a [try]: a value, or the exception raised. *)
Inductive tried (A : Type) : Type :=
| Done (a : A)
| Failed (f : failure).
Arguments Done {A} a.
Arguments Failed {A} f.

Definition and_then {A B} (m : tried A) (k : A → tried B) : tried B :=
  match m with
  | Done a => k a
  | Failed f => Failed f
  end.

Definition of_option {A} (f : failure) (o : option A) : tried A :=
  match o with
  | Some a => Done a
  | None => Failed f
  end.

(** [data[k]] for a string [k]: only an object can be subscripted by a
    string. *)
Definition subscript (data : json) (k : string) : tried value :=
  match data with
  | JObject d => of_option (KeyError k) (d !! KStr k)
  | JValue _ => Failed (Builtin TypeError)
  end.

(** [v[0:n]]: lists and strings can be sliced. *)
Definition slice (v : value) (n : nat) : tried value :=
  match v with
  | VList l => Done (VList (take n l))
  | VStr s => Done (VStr (String.substring 0 n s))
  | _ => Failed (Builtin TypeError)
  end.

(** [v[i]] for a non-negative [i]. *)
Definition item (v : value) (i : nat) : tried value :=
  match v with
  | VList l => of_option (Builtin IndexError) (l !! i)
  | VStr s =>
      of_option (Builtin IndexError)
        ((λ c, VStr (String c EmptyString)) <$> String.get i s)
  | _ => Failed (Builtin TypeError)
  end.

(** [len(v)] *)
Definition size (v : value) : tried nat :=
  match v with
  | VList l => Done (length l)
  | VStr s => Done (String.length s)
  | _ => Failed (Builtin TypeError)
  end.

(** [choice(seq)], with [r] the raw draw of the generator. *)
Definition choice (seq : value) (r : nat) : tried value :=
  and_then (size seq) (λ n,
    if Nat.eqb n 0 then Failed (Builtin IndexError)
    else item seq (r mod n)).

(** The collection API and the generator, as one call sees them: the
    decoded body of the search for a query and of the detail request for
    an object ([None] when the request or the decoding raises), and the
    raw draw. *)
Record service : Type := Service {
  search : option string → option json;
  details : value → option json;
  draw : nat
}.

(** [choice(object_ids[0:20]) if random else object_ids[0]] *)
Definition select_object_id (random : bool) (object_ids : value) (r : nat)
    : tried value :=
  if random then and_then (slice object_ids 20) (λ seq, choice seq r)
  else item object_ids 0.

(** The body of the [try] of [get_artwork]. *)
Definition get_artwork_try (sv : service) (query : option string)
    (random : bool) : tried json :=
  and_then (of_option RequestError (search sv query))
    (λ search_response_data,
  and_then (subscript search_response_data "objectIDs") (λ object_ids,
  and_then (select_object_id random object_ids (draw sv)) (λ object_id,
  of_option RequestError (details sv object_id)))).

(** [get_artwork]: what it returns or raises, and the exception its
    handler prints. *)
Definition get_artwork (sv : service) (query : option string) (random : bool)
    : result json * list failure :=
  match get_artwork_try sv query random with
  | Done details_response_data => (Ok details_response_data, [])
  | Failed e => (Raise (SystemExit 1), [e])
  end.

(** *** The file system [download_artwork] writes to

    Paths are the strings the program passes, compared as written. *)
Inductive node : Type :=
| Dir
| File (content : string).

Abbreviation files := (gmap string node).

(** What the outside decides for one call: the body of the response to
    the image request ([None] when it raises), whether a directory may be
    made and a file opened for writing, and what a write that fails
    leaves in the file ([None] when write and close succeed). *)
Record host : Type := Host {
  http_get : string → option string;
  may_mkdir : string → bool;
  may_open : string → bool;
  disk_write : string → string → option string
}.

(** [os.path.exists(p)] *)
Definition path_exists (fs : files) (p : string) : bool :=
  bool_decide (is_Some (fs !! p)).

(** [os.mkdir(p)]: fails on the empty path, on a path that exists, and
    when the system refuses. *)
Definition mkdir (h : host) (fs : files) (p : string) : tried files :=
  if bool_decide (p = ""%string) || path_exists fs p || negb (may_mkdir h p)
  then Failed OSError
  else Done (<[p := Dir]> fs).

Definition starts_with_slash (s : string) : bool :=
  match s with
  | String c _ => bool_decide (c = "/"%char)
  | EmptyString => false
  end.

Fixpoint ends_with_slash (s : string) : bool :=
  match s with
  | EmptyString => false
  | String c EmptyString => bool_decide (c = "/"%char)
  | String _ s' => ends_with_slash s'
  end.

(** [os.path.join(a, b)] of [posixpath]. *)
Definition join (a b : string) : string :=
  if starts_with_slash b then b
  else if bool_decide (a = ""%string) || ends_with_slash a then (a ++ b)%string
  else (a ++ "/" ++ b)%string.

(** [f"{id}.png"] for an integer [id]. *)
Definition filename (id : Z) : string := (pretty id ++ ".png")%string.

(** [open(path, "wb")] for a [path] in the directory [dir]: the directory
    must be one, the path must not be one, and the system must agree; the
    file is then there and empty. *)
Definition open_wb (h : host) (fs : files) (dir path : string) : tried files :=
  match fs !! dir, fs !! path with
  | Some Dir, Some Dir => Failed OSError
  | Some Dir, _ =>
      if may_open h path then Done (<[path := File ""]> fs)
      else Failed OSError
  | _, _ => Failed OSError
  end.

(** [download_artwork]: what it returns or raises, the file system it
    leaves and the exception its handler prints.  The name of the file
    has no separator, so its directory is [location]. *)
Definition download_artwork (h : host) (id : Z) (image_url location : string)
    (fs : files) : result unit * files * list failure :=
  match http_get h image_url with
  | None => (Raise (SystemExit 1), fs, [RequestError])
  | Some content =>
      match (if negb (path_exists fs location) then mkdir h fs location
             else Done fs) with
      | Failed e => (Raise (SystemExit 1), fs, [e])
      | Done fs1 =>
          let path := join location (filename id) in
          match open_wb h fs1 location path with
          | Failed e => (Raise (SystemExit 1), fs1, [e])
          | Done fs2 =>
              match disk_write h path content with
              | None => (Ok tt, <[path := File content]> fs2, [])
              | Some left_over =>
                  (Raise (SystemExit 1), <[path := File left_over]> fs2,
                   [OSError])
              end
          end
      end
  end.

End Met.

(** ** Auxiliary notions used in the statements *)

(** A decoded JSON object: every key is a string. *)
Definition record_of (fields : list (string * value)) : dict :=
  list_to_map (prod_map KStr id <$> fields).

(** The primary-image field is absent (or null) or the empty string. *)
Definition lacks_image (d : dict) : Prop :=
  get d (KStr "primaryImage") = VNone ∨ get d (KStr "primaryImage") = VStr ""%string.

(** Every attempt within the retry budget, in either mode and whatever
    the draw, yields an identifier of the list. *)
Definition selection_total_on (object_ids : list Z) : Prop :=
  ∀ random attempt r,
    attempt < NUM_RETRIES →
    ∃ object_id,
      select_candidate random object_ids attempt r = Ok object_id
      ∧ object_id ∈ object_ids.

(** Whether the process has ended. *)
Definition halted (c : config) : Prop := ∃ e, at_pc c = Halted e.

(** Upper bound on the steps left before the process ends, with
    [T = max(0, total_count)] slots of at most [NUM_RETRIES + 3] steps. *)
Definition steps_left (total_count : Z) (c : config) : nat :=
  let T := Z.to_nat total_count in
  match at_pc c with
  | OuterTest => (T - count c) * (NUM_RETRIES + 3) + 1
  | InnerTest =>
      (T - S (count c)) * (NUM_RETRIES + 3) + (NUM_RETRIES - attempt c) + 3
  | SlotEnd => (T - S (count c)) * (NUM_RETRIES + 3) + 2
  | Halted _ => 0
  end.


(** The identifiers handed to [get_artwork], in order. *)
Definition fetched (l : list event) : list Z :=
  omap (λ ev, match ev with EvFetch i => Some i | _ => None end) l.

(** ** Sample records and worlds *)

Definition image_of (n : Z) : string :=
  ("https://images.metmuseum.org/CRDImages/" ++ pretty n ++ ".jpg")%string.

(** A record with an image, and one whose image field is empty. *)
Definition artwork (n : Z) : dict :=
  record_of [("objectID", VInt n); ("primaryImage", VStr (image_of n));
             ("title", VStr "Untitled")].

Definition imageless (n : Z) : dict :=
  record_of [("objectID", VInt n); ("primaryImage", VStr "");
             ("title", VStr "Untitled")].

(** Every object has an image and every request succeeds. *)
Definition all_images : world :=
  World (λ _, 0) (λ _ n, Some (artwork n)) (λ _ _ _, true).

(** No object has an image. *)
Definition no_images : world :=
  World (λ _, 0) (λ _ n, Some (imageless n)) (λ _ _ _, true).


(** The first detail request succeeds, every later one raises. *)
Definition api_fails_after_first : world :=
  World (λ _, 0) (λ t n, if Nat.eqb t 1 then Some (artwork n) else None)
        (λ _ _ _, true).

(** Every request and download succeeds; the generator draws 7, 14, ... *)
Definition drawing : world :=
  World (λ t, 7 * t) (λ _ n, Some (artwork n)) (λ _ _ _, true).

(** ** Sample services and hosts for [api/met.py] *)

(** A search with three results, each with a record. *)
Definition gallery : Met.service :=
  Met.Service
    (λ _, Some (Met.JObject
                  (record_of [("total", VInt 3);
                              ("objectIDs",
                               VList [VInt 436535; VInt 437980; VInt 11417])])))
    (λ v, Some (Met.JObject
                  (record_of [("objectID", v);
                              ("primaryImage", VStr "https://images.metmuseum.org/a.jpg")])))
    5.

(** A search without result: the API answers with a null list. *)
Definition no_match : Met.service :=
  Met.Service
    (λ _, Some (Met.JObject
                  (record_of [("total", VInt 0); ("objectIDs", VNone)])))
    (λ _, None)
    5.

(** Every request, directory and write goes through. *)
Definition willing : Met.host :=
  Met.Host (λ u, Some ("image at " ++ u)%string) (λ _, true) (λ _, true)
    (λ _ _, None).

(** ** Notions for the whole run *)

(** The records handed to [print_artwork], in order. *)
Definition printed (l : list event) : list dict :=
  omap (λ ev, match ev with EvPrintArtwork a => Some a | _ => None end) l.

(** The notice of the branch that skips an artwork already downloaded. *)
Definition is_skip_downloaded (ev : event) : bool :=
  match ev with EvSkipDownloaded _ => true | _ => false end.

(** The part of the search result a mode can select from: by index the
    first [NUM_RETRIES] identifiers, by draw the first
    [FUZZY_SEARCH_THRESHOLD]. *)
Definition window (random : bool) (object_ids : list Z) : list Z :=
  take (if random then FUZZY_SEARCH_THRESHOLD else NUM_RETRIES) object_ids.

(** The attempts begun, against the slots: at most [NUM_RETRIES] per
    slot, and no more requests than attempts. *)
Definition attempt_invariant (total_count : Z) (c : config) : Prop :=
  let T := Z.to_nat total_count in
  attempt c ≤ NUM_RETRIES
  ∧ length (fetched (log (mem c))) ≤ clock (mem c)
  ∧ match at_pc c with
    | OuterTest => count c ≤ T ∧ clock (mem c) ≤ NUM_RETRIES * count c
    | InnerTest =>
        count c < T ∧ clock (mem c) ≤ NUM_RETRIES * count c + attempt c
    | SlotEnd =>
        count c < T ∧ clock (mem c) ≤ NUM_RETRIES * count c + NUM_RETRIES
    | Halted _ =>
        clock (mem c) ≤ NUM_RETRIES * T
        ∧ clock (mem c) ≤ NUM_RETRIES * count c + NUM_RETRIES
    end.

(** Where a record of [viewed] comes from: the response to a request for
    an identifier of the window, with an image field of positive length,
    whose download succeeded. *)
Definition accepted (w : world) (random : bool) (object_ids : list Z)
    (d : dict) : Prop :=
  ∃ t object_id,
    object_id ∈ window random object_ids
    ∧ fetch w t object_id = Some d
    ∧ (∃ k, len (get d (KStr "primaryImage")) = Ok (S k))
    ∧ save w t (get d (KStr "objectID")) (get d (KStr "primaryImage")) = true.

(** * Properties *)

(** ** Dictionaries *)

Lemma record_of_string_keyed fields : string_keyed (record_of fields).
Proof.
  intros k [v Hv]. unfold record_of in Hv.
  apply elem_of_list_to_map_2 in Hv.
  apply list_elem_of_fmap in Hv as [[s x] [Heq _]].
  simpl in Heq. inversion Heq. eauto.
Qed.

Lemma string_keyed_get_bool d b :
  string_keyed d → get d (key_of_bool b) = VNone.
Proof.
  intros Hd. unfold get.
  destruct (d !! key_of_bool b) as [v|] eqn:Hlook; [|reflexivity].
  destruct (Hd (key_of_bool b)) as [s Hs]; [eauto|].
  unfold key_of_bool in Hs. discriminate.
Qed.

(** C10.  On records whose keys are all strings [check_if_exists] answers
    [False] whatever the identifier and whatever the records hold: the
    key it looks up is the boolean ["id" == obj_id], which no such record
    has. *)
Theorem check_if_exists_always_false (obj_id : value) (objects : list dict) :
  Forall string_keyed objects →
  check_if_exists obj_id objects = false.
Proof.
  induction 1 as [|obj rest Hobj _ IH]; simpl; [reflexivity|].
  rewrite string_keyed_get_bool by assumption. simpl. exact IH.
Qed.

Lemma check_if_exists_always_false_witness :
  Forall string_keyed [artwork 7; artwork 9]
  ∧ check_if_exists (VInt 7) [artwork 7; artwork 9] = false.
Proof.
  assert (H : Forall string_keyed [artwork 7; artwork 9]).
  { repeat constructor; apply record_of_string_keyed. }
  split; [exact H|].
  exact (check_if_exists_always_false (VInt 7) [artwork 7; artwork 9] H).
Defined.

(** ** Candidate selection *)

Lemma index_Ok {A} (l : list A) i x : index l i = Ok x ↔ l !! i = Some x.
Proof.
  unfold index. destruct (l !! i); split; intros H; congruence.
Qed.

Lemma choice_in {A} (seq : list A) r :
  seq ≠ [] → ∃ x, choice seq r = Ok x ∧ x ∈ seq.
Proof.
  intros Hne. destruct seq as [|a seq']; [congruence|].
  unfold choice. set (l := a :: seq').
  assert (Hlt : r mod length l < length l).
  { apply Nat.mod_upper_bound. simpl. lia. }
  destruct (lookup_lt_is_Some_2 l _ Hlt) as [x Hx].
  exists x. split.
  - apply index_Ok. exact Hx.
  - apply list_elem_of_lookup. eauto.
Qed.

Lemma take_window {A} (l : list A) n : take (n `min` length l) l = take n l.
Proof.
  destruct (Nat.le_ge_cases n (length l)) as [H|H].
  - rewrite Nat.min_l by assumption. reflexivity.
  - rewrite Nat.min_r by assumption.
    rewrite firstn_all. symmetry. apply take_ge. exact H.
Qed.


Lemma select_random object_ids attempt r :
  select_candidate true object_ids attempt r
  = choice (take FUZZY_SEARCH_THRESHOLD object_ids) r.
Proof. reflexivity. Qed.

Lemma select_random_in_window object_ids attempt r :
  object_ids ≠ [] →
  ∃ object_id,
    select_candidate true object_ids attempt r = Ok object_id
    ∧ object_id ∈ take FUZZY_SEARCH_THRESHOLD object_ids.
Proof.
  intros Hne. rewrite select_random. apply choice_in.
  destruct object_ids; [congruence|]. discriminate.
Qed.



(** C5.  In random mode, on a non-empty search result of length [N], the
    candidate of every attempt is one of the first [min(20, N)]
    identifiers, whatever the generator draws. *)
Theorem random_selects_in_window (object_ids : list Z) (attempt r : nat) :
  object_ids ≠ [] →
  ∃ object_id,
    select_candidate true object_ids attempt r = Ok object_id
    ∧ object_id ∈ take (20 `min` length object_ids) object_ids.
Proof.
  intros Hne. rewrite take_window.
  apply select_random_in_window. exact Hne.
Qed.

Lemma random_selects_in_window_witness :
  [5; 6; 7]%Z ≠ []
  ∧ ∃ object_id,
      select_candidate true [5; 6; 7]%Z 2 10 = Ok object_id
      ∧ object_id ∈ take (20 `min` length [5; 6; 7]%Z) [5; 6; 7]%Z.
Proof.
  split; [discriminate|].
  apply (random_selects_in_window [5; 6; 7]%Z 2 10). discriminate.
Defined.

(** C3 on the code.  A search result with a single identifier is
    shorter than the retry budget, and the second attempt of a non-random
    slot indexes past its end: when the first record has no image the run
    reaches that attempt, where the comment of the loop says to retry,
    and ends with the uncaught [IndexError]. *)
Lemma short_result_selection_raises :
  length [436535%Z] < NUM_RETRIES
  ∧ select_candidate false [436535%Z] 1 0 = Raise IndexError
  ∧ at_pc (main no_images false false [436535%Z] 1) = Halted IndexError
  ∧ ¬ selection_total_on [436535%Z].
Proof.
  split; [unfold NUM_RETRIES; simpl; lia|].
  split; [reflexivity|].
  split; [vm_compute; reflexivity|].
  intros Htotal.
  destruct (Htotal false 1 0) as [object_id [Hsel _]].
  - unfold NUM_RETRIES. lia.
  - discriminate Hsel.
Qed.

(** ** The filter *)

Lemma filter_artwork_unfold artwork s :
  filter_artwork artwork s
  = match image_missing (get artwork (KStr "primaryImage")) with
    | Ok true => (Ok NoImage, s)
    | Ok false =>
        if check_if_exists (get artwork (KStr "objectID")) (viewed s)
        then (Ok Duplicate, s) else (Ok Accept, s)
    | Raise e => (Raise e, s)
    end.
Proof.
  unfold filter_artwork, bind, get_viewed, lift, ret.
  destruct (image_missing _) as [[|]|e]; try reflexivity.
  destruct (check_if_exists _ _); reflexivity.
Qed.

(** C9.  The decision of the filter depends on the record and on [viewed]
    only, and evaluating it changes nothing: evaluated again on the same
    record, in any store with the same [viewed], it gives the same
    answer. *)
Theorem filter_idempotent (artwork : dict) (s s' : store) :
  viewed s' = viewed s →
  (filter_artwork artwork s).2 = s
  ∧ (filter_artwork artwork s').1 = (filter_artwork artwork s).1.
Proof.
  intros Hv. rewrite !filter_artwork_unfold, Hv.
  destruct (image_missing _) as [[|]|e]; simpl; auto.
  destruct (check_if_exists _ _); simpl; auto.
Qed.

Lemma filter_idempotent_witness :
  let s := Store [artwork 2] 1 [] in
  let s' := Store [artwork 2] 2 [EvSkipMissing (VInt 3)] in
  viewed s' = viewed s
  ∧ (filter_artwork (imageless 3) s).2 = s
  ∧ (filter_artwork (imageless 3) s').1 = (filter_artwork (imageless 3) s).1.
Proof.
  intros s s'. split; [reflexivity|].
  apply (filter_idempotent (imageless 3) s s'). reflexivity.
Defined.

(** ** One attempt *)

Lemma index_raise {A} (l : list A) i e : index l i = Raise e → e = IndexError.
Proof. unfold index. destruct (l !! i); congruence. Qed.

Lemma select_candidate_raise random object_ids attempt r e :
  select_candidate random object_ids attempt r = Raise e → e = IndexError.
Proof.
  unfold select_candidate, choice.
  destruct random; simpl; [|apply index_raise].
  destruct (take _ _); [congruence | apply index_raise].
Qed.

Lemma image_missing_raise image_url e :
  image_missing image_url = Raise e → e = TypeError.
Proof. destruct image_url; simpl; congruence. Qed.

Ltac body_simpl :=
  cbv beta iota delta [body get_artwork download_artwork bind tick
    get_clock lift emit raise append_viewed ret];
  cbn [viewed clock log fst snd].

Ltac body_cases :=
  body_simpl;
  repeat (match goal with
    | |- context [select_candidate ?b ?l ?a ?r] =>
        destruct (select_candidate b l a r) eqn:?
    | |- context [fetch ?w ?t ?i] => destruct (fetch w t i) eqn:?
    | |- context [filter_artwork ?d ?s] =>
        rewrite (filter_artwork_unfold d s)
    | |- context [image_missing ?v] => destruct (image_missing v) as [[|]|] eqn:?
    | |- context [check_if_exists ?i ?l] => destruct (check_if_exists i l) eqn:?
    | |- context [save ?w ?t ?i ?u] => destruct (save w t i u) eqn:?
    end; body_simpl).

Section Attempt.

Variable w : world.
Variable random : bool.
Variable object_ids : list Z.

(** Only [break] follows an [append], and it appends one record. *)
Lemma body_viewed attempt s :
  match body w random object_ids attempt s with
  | (Ok Break, s') => ∃ artwork, viewed s' = viewed s ++ [artwork]
  | (_, s') => viewed s' = viewed s
  end.
Proof. body_cases; eauto. Qed.

Lemma body_next attempt s :
  match body w random object_ids attempt s with
  | (Ok (Next a), _) => a = attempt + 1
  | _ => True
  end.
Proof. body_cases; eauto. Qed.

Lemma body_clock attempt s :
  clock (body w random object_ids attempt s).2 = S (clock s).
Proof. body_cases; reflexivity. Qed.


Lemma body_fetch_fails attempt s object_id :
  select_candidate random object_ids attempt (rand w (S (clock s)))
  = Ok object_id →
  fetch w (S (clock s)) object_id = None →
  body w random object_ids attempt s
  = (Raise (SystemExit 1),
     Store (viewed s) (S (clock s))
           (log s ++ [EvFetch object_id; EvFetchError object_id])).
Proof.
  intros Hsel Hfetch. body_cases; try congruence.
  rewrite <- app_assoc. simpl. congruence.
Qed.

Lemma lacks_image_missing d :
  lacks_image d → image_missing (get d (KStr "primaryImage")) = Ok true.
Proof. intros [-> | ->]; reflexivity. Qed.

Lemma body_no_image attempt s object_id d :
  select_candidate random object_ids attempt (rand w (S (clock s)))
  = Ok object_id →
  fetch w (S (clock s)) object_id = Some d →
  lacks_image d →
  body w random object_ids attempt s
  = (Ok (Next (attempt + 1)),
     Store (viewed s) (S (clock s))
           (log s ++ [EvFetch object_id;
                      EvSkipMissing (get d (KStr "objectID"))])).
Proof.
  intros Hsel Hfetch Hd. apply lacks_image_missing in Hd.
  body_cases; try congruence.
  rewrite <- app_assoc. simpl. congruence.
Qed.

End Attempt.

(** ** The run *)

Section Machine.

Variable w : world.
Variable random report : bool.
Variable object_ids : list Z.
Variable total_count : Z.

Local Abbreviation step' := (step w random report object_ids total_count).
Local Abbreviation run' := (run w random report object_ids total_count).
Local Abbreviation main' := (main w random report object_ids total_count).
Local Abbreviation reachable' :=
  (reachable w random report object_ids total_count).

Lemma halted_dec c : {halted c} + {¬ halted c}.
Proof.
  unfold halted. destruct (at_pc c) eqn:Hpc;
    (left; eexists; reflexivity) || (right; intros [e He]; discriminate).
Qed.

Lemma step_halted c : halted c → step' c = c.
Proof. intros [e He]. unfold step. rewrite He. reflexivity. Qed.

Lemma run_halted n c : halted c → run' n c = c.
Proof.
  induction n as [|n IH]; intros Hc; simpl; [reflexivity|].
  rewrite (step_halted c Hc). auto.
Qed.

Lemma run_add n m c : run' (n + m) c = run' m (run' n c).
Proof. revert c. induction n as [|n IH]; intros c; simpl; auto. Qed.

Lemma run_S n c : run' (S n) c = step' (run' n c).
Proof.
  replace (S n) with (n + 1) by lia. rewrite run_add. reflexivity.
Qed.

Lemma reachable_run n : reachable' (run' n init).
Proof.
  induction n as [|n IH]; [apply reach_init|].
  rewrite run_S. apply reach_step. exact IH.
Qed.

Lemma reachable_inv c : reachable' c → ∃ n, c = run' n init.
Proof.
  induction 1 as [|c _ [n ->]]; [exists 0; reflexivity|].
  exists (S n). rewrite run_S. reflexivity.
Qed.

(** *** Termination *)

Lemma steps_left_pos c : ¬ halted c → 0 < steps_left total_count c.
Proof.
  unfold halted, steps_left, NUM_RETRIES. intros Hc.
  destruct (at_pc c) eqn:Hpc; try lia. exfalso. eauto.
Qed.

Lemma steps_left_decreases c :
  ¬ halted c →
  steps_left total_count (step' c) < steps_left total_count c.
Proof.
  unfold halted, steps_left, step, finish. intros Hc.
  destruct c as [p n a s]; simpl in *. destruct p; simpl;
    unfold NUM_RETRIES.
  - destruct (Z.ltb_spec (Z.of_nat n) total_count) as [Hlt|Hge]; simpl.
    + assert (Hn : Z.to_nat total_count - n
                   = S (Z.to_nat total_count - S n)) by lia.
      rewrite Hn. lia.
    + lia.
  - destruct (Nat.ltb_spec a 3) as [Hlt|Hge]; simpl; [|lia].
    pose proof (body_next w random object_ids a s) as Hnext.
    destruct (body w random object_ids a s) as [[[a'|]|e] s']; simpl;
      [subst a' | |]; lia.
  - lia.
  - exfalso. eauto.
Qed.

Lemma run_halts n c : steps_left total_count c ≤ n → halted (run' n c).
Proof.
  revert c. induction n as [|n IH]; intros c Hle;
    destruct (halted_dec c) as [Hc|Hc].
  - exact Hc.
  - pose proof (steps_left_pos c Hc). lia.
  - rewrite run_halted; assumption.
  - simpl. apply IH. pose proof (steps_left_decreases c Hc). lia.
Qed.

(** The process always ends: [main] is the configuration in which it
    has ended. *)
Lemma main_halts : halted main'.
Proof.
  apply run_halts. unfold steps_left, enough, init, NUM_RETRIES; simpl. lia.
Qed.

Lemma steps_budget n :
  halted (run' n init)
  ∨ steps_left total_count (run' n init) + n ≤ enough total_count.
Proof.
  induction n as [|n [Hh|Hle]].
  - right. unfold steps_left, enough, init, NUM_RETRIES; simpl. lia.
  - left. rewrite run_S, step_halted; assumption.
  - destruct (halted_dec (run' n init)) as [Hc|Hc].
    + left. rewrite run_S, step_halted; assumption.
    + right. rewrite run_S.
      pose proof (steps_left_decreases _ Hc). lia.
Qed.

(** A reachable configuration whose successor has ended the process is
    the last but one of the run. *)
Lemma main_after c :
  reachable' c → halted (step' c) → main' = step' c.
Proof.
  intros Hr Hh. destruct (reachable_inv c Hr) as [n ->].
  destruct (halted_dec (run' n init)) as [Hn|Hn].
  - rewrite (step_halted _ Hn).
    destruct (Nat.le_ge_cases n (enough total_count)) as [Hle|Hge].
    + unfold main. replace (enough total_count)
        with (n + (enough total_count - n)) by lia.
      rewrite run_add. apply run_halted. exact Hn.
    + replace n with (enough total_count + (n - enough total_count)) by lia.
      rewrite run_add. fold main'. symmetry.
      apply run_halted. apply main_halts.
  - pose proof (steps_left_pos _ Hn) as Hpos.
    destruct (steps_budget n) as [Hn'|Hle]; [contradiction|].
    unfold main. replace (enough total_count)
      with (S n + (enough total_count - S n)) by lia.
    rewrite run_add, run_S. apply run_halted. exact Hh.
Qed.

(** *** Slots and records *)




(** A step appends at most one record to [viewed] and removes none. *)
Lemma step_viewed c :
  viewed (mem (step' c)) = viewed (mem c)
  ∨ ∃ artwork, viewed (mem (step' c)) = viewed (mem c) ++ [artwork].
Proof.
  unfold step, finish. destruct c as [p n a s]; simpl.
  destruct p; simpl; auto.
  - destruct (Z.of_nat n <? total_count)%Z; simpl; auto.
  - destruct (Nat.ltb a NUM_RETRIES); simpl; auto.
    pose proof (body_viewed w random object_ids a s) as Hv.
    destruct (body w random object_ids a s) as [[[a'|]|e] s']; simpl; auto.
Qed.


(** *** A record without image *)

Lemma step_no_image c object_id d :
  at_pc c = InnerTest →
  attempt c < NUM_RETRIES →
  select_candidate random object_ids (attempt c) (rand w (S (clock (mem c))))
  = Ok object_id →
  fetch w (S (clock (mem c))) object_id = Some d →
  lacks_image d →
  step' c
  = Config InnerTest (count c) (attempt c + 1)
      (Store (viewed (mem c)) (S (clock (mem c)))
         (log (mem c)
          ++ [EvFetch object_id; EvSkipMissing (get d (KStr "objectID"))])).
Proof.
  intros Hpc Ha Hsel Hfetch Hd. unfold step. rewrite Hpc.
  apply Nat.ltb_lt in Ha. rewrite Ha.
  rewrite (body_no_image _ _ _ _ _ _ _ Hsel Hfetch Hd). reflexivity.
Qed.

(** *** Failure of the detail request *)

(** C8.  When the detail request for the candidate of an attempt raises,
    that step ends the process with [exit(1)]: the status is 1, [viewed]
    is what it was before the request, no later step changes anything,
    and the configuration reached is the outcome of the whole run. *)
Theorem fetch_failure_is_fatal (c : config) (object_id : Z) :
  reachable' c →
  at_pc c = InnerTest →
  attempt c < NUM_RETRIES →
  select_candidate random object_ids (attempt c) (rand w (S (clock (mem c))))
  = Ok object_id →
  fetch w (S (clock (mem c))) object_id = None →
  at_pc (step' c) = Halted (SystemExit 1)
  ∧ exit_status (SystemExit 1) = 1%Z
  ∧ viewed (mem (step' c)) = viewed (mem c)
  ∧ count (step' c) = count c
  ∧ fetched (log (mem (step' c))) = fetched (log (mem c)) ++ [object_id]
  ∧ (∀ n, run' n (step' c) = step' c)
  ∧ main' = step' c.
Proof.
  intros Hr Hpc Ha Hsel Hfetch.
  assert (Hstep : step' c
                  = Config (Halted (SystemExit 1)) (count c) (attempt c)
                      (Store (viewed (mem c)) (S (clock (mem c)))
                         (log (mem c)
                          ++ [EvFetch object_id; EvFetchError object_id]))).
  { unfold step. rewrite Hpc.
    apply Nat.ltb_lt in Ha. rewrite Ha.
    rewrite (body_fetch_fails _ _ _ _ _ _ Hsel Hfetch). reflexivity. }
  assert (Hh : halted (step' c)) by (rewrite Hstep; eexists; reflexivity).
  repeat split; try (rewrite Hstep; reflexivity).
  - rewrite Hstep. simpl. unfold fetched. rewrite omap_app. reflexivity.
  - intros n. apply run_halted. exact Hh.
  - apply main_after; assumption.
Qed.

End Machine.


Lemma fetch_failure_is_fatal_witness :
  let c := run api_fails_after_first false false [1; 2; 3; 4]%Z 2 4 init in
  let c' := step api_fails_after_first false false [1; 2; 3; 4]%Z 2 c in
  at_pc c = InnerTest
  ∧ viewed (mem c) = [artwork 1]
  ∧ at_pc c' = Halted (SystemExit 1)
  ∧ viewed (mem c') = [artwork 1]
  ∧ main api_fails_after_first false false [1; 2; 3; 4]%Z 2 = c'.
Proof.
  intros c c'.
  assert (Hr : reachable api_fails_after_first false false [1; 2; 3; 4]%Z 2 c)
    by apply reachable_run.
  assert (Hpc : at_pc c = InnerTest) by reflexivity.
  assert (Ha : attempt c < NUM_RETRIES) by (vm_compute; lia).
  assert (Hsel : select_candidate false [1; 2; 3; 4]%Z (attempt c)
                   (rand api_fails_after_first (S (clock (mem c)))) = Ok 1%Z)
    by reflexivity.
  assert (Hfetch : fetch api_fails_after_first (S (clock (mem c))) 1%Z = None)
    by reflexivity.
  destruct (fetch_failure_is_fatal api_fails_after_first false false
              [1; 2; 3; 4]%Z 2 c 1%Z Hr Hpc Ha Hsel Hfetch)
    as [Hhalt [_ [Hviewed [_ [_ [_ Hmain]]]]]].
  split; [exact Hpc|]. split; [reflexivity|].
  split; [exact Hhalt|]. split; [exact (eq_trans Hviewed eq_refl) | exact Hmain].
Defined.


(** ** Scenarios *)

(** C7.  Search result [[1,2,3]], non-random, one slot, and no record
    with an image: the slot makes its three attempts, on 1, 2 and 3 in
    turn, nothing is added to [viewed], and the process ends through
    [sys.exit(0)], status 0. *)
Theorem exhausted_budget_is_soft (w : world) (report : bool) :
  (∀ t object_id, object_id ∈ [1; 2; 3]%Z →
     ∃ d, fetch w t object_id = Some d ∧ lacks_image d) →
  let c := main w false report [1; 2; 3]%Z 1 in
  at_pc c = Halted (SystemExit 0)
  ∧ exit_status (SystemExit 0) = 0%Z
  ∧ viewed (mem c) = []
  ∧ clock (mem c) = NUM_RETRIES
  ∧ attempt c = NUM_RETRIES
  ∧ fetched (log (mem c)) = [1; 2; 3]%Z
  ∧ count c = 1.
Proof.
  intros Hw.
  destruct (Hw 1 1%Z) as [d1 [H1 L1]]; [set_solver|].
  destruct (Hw 2 2%Z) as [d2 [H2 L2]]; [set_solver|].
  destruct (Hw 3 3%Z) as [d3 [H3 L3]]; [set_solver|].
  unfold main. change (enough 1) with 7. cbn [run].
  change (step w false report [1; 2; 3]%Z 1 init)
    with (Config InnerTest 0 0 (Store [] 0 [])).
  rewrite (step_no_image w false report _ 1
             (Config InnerTest 0 0 (Store [] 0 [])) 1%Z d1);
    [|reflexivity | unfold NUM_RETRIES; simpl; lia | reflexivity
     | exact H1 | exact L1].
  cbn [at_pc count attempt mem viewed clock log Nat.add app].
  match goal with
  | |- context [step _ _ _ _ _ (step _ _ _ _ _
                  (step _ _ _ _ _ (step _ _ _ _ _ ?c)))] =>
      rewrite (step_no_image w false report _ 1 c 2%Z d2);
      [|reflexivity | unfold NUM_RETRIES; simpl; lia | reflexivity
       | exact H2 | exact L2]
  end.
  cbn [at_pc count attempt mem viewed clock log Nat.add app].
  match goal with
  | |- context [step _ _ _ _ _ (step _ _ _ _ _ (step _ _ _ _ _ ?c))] =>
      rewrite (step_no_image w false report _ 1 c 3%Z d3);
      [|reflexivity | unfold NUM_RETRIES; simpl; lia | reflexivity
       | exact H3 | exact L3]
  end.
  destruct report; cbn; repeat split; reflexivity.
Qed.

Lemma imageless_lacks_image n : lacks_image (imageless n).
Proof. right. reflexivity. Qed.

Lemma exhausted_budget_is_soft_witness :
  let c := main no_images false false [1; 2; 3]%Z 1 in
  at_pc c = Halted (SystemExit 0)
  ∧ viewed (mem c) = []
  ∧ clock (mem c) = 3.
Proof.
  intros c.
  destruct (exhausted_budget_is_soft no_images false) as [Hpc [_ [Hv [Hc _]]]].
  - intros t object_id _. exists (imageless object_id).
    split; [reflexivity | apply imageless_lacks_image].
  - split; [exact Hpc|]. split; [exact Hv | exact Hc].
Defined.

(** C1 on the code.  Target of two, non-random, search result
    [[1,2,3,4]], every record with an image: both slots take their first
    attempt on identifier 1 and both are accepted, so [viewed] ends with
    two records of identifier 1. *)
Theorem viewed_repeats_identifier :
  let c := main all_images false false [1; 2; 3; 4]%Z 2 in
  at_pc c = Halted (SystemExit 0)
  ∧ identifiers (viewed (mem c)) = [VInt 1; VInt 1]
  ∧ ¬ NoDup (identifiers (viewed (mem c))).
Proof.
  assert (Hids : identifiers (viewed (mem
                   (main all_images false false [1; 2; 3; 4]%Z 2)))
                 = [VInt 1; VInt 1]) by (vm_compute; reflexivity).
  cbv zeta. split; [vm_compute; reflexivity|]. split; [exact Hids|].
  rewrite Hids. intros Hnd. apply NoDup_cons in Hnd as [Hnotin _].
  apply Hnotin. left.
Qed.

(** C2 on the code.  In the same run the second slot fetches identifier 1
    again on its attempt 0, the filter accepts it, no attempt is made on
    identifier 2, and the final [viewed] is [[artwork(1), artwork(1)]],
    not [[artwork(1), artwork(2)]]. *)
Theorem second_slot_accepts_duplicate :
  let c := main all_images false false [1; 2; 3; 4]%Z 2 in
  fetched (log (mem c)) = [1; 1]%Z
  ∧ filter_artwork (artwork 1) (Store [artwork 1] 2 []) 
    = (Ok Accept, Store [artwork 1] 2 [])
  ∧ viewed (mem c) = [artwork 1; artwork 1]
  ∧ viewed (mem c) ≠ [artwork 1; artwork 2].
Proof.
  assert (Hv : viewed (mem (main all_images false false [1; 2; 3; 4]%Z 2))
               = [artwork 1; artwork 1]) by (vm_compute; reflexivity).
  cbv zeta. split; [vm_compute; reflexivity|].
  split; [vm_compute; reflexivity|]. split; [exact Hv|].
  rewrite Hv. intros Heq.
  assert (Hid : identifiers [artwork 1; artwork 1]
                = identifiers [artwork 1; artwork 2]) by (rewrite Heq; reflexivity).
  vm_compute in Hid. discriminate Hid.
Qed.

(** * Further properties of the run *)

(** ** The outcomes of one attempt *)

Section Outcomes.

Variable w : world.
Variable random : bool.
Variable object_ids : list Z.

(** The body in normal form: what it returns and the store it leaves, by
    the candidate, the response, the image field, the duplicate check and
    the download. *)
Lemma body_outcomes attempt s :
  let t := S (clock s) in
  body w random object_ids attempt s
  = match select_candidate random object_ids attempt (rand w t) with
    | Raise e => (Raise e, Store (viewed s) t (log s))
    | Ok object_id =>
        match fetch w t object_id with
        | None =>
            (Raise (SystemExit 1),
             Store (viewed s) t
               (log s ++ [EvFetch object_id; EvFetchError object_id]))
        | Some d =>
            let image_url := get d (KStr "primaryImage") in
            let artwork_id := get d (KStr "objectID") in
            match image_missing image_url with
            | Raise e =>
                (Raise e, Store (viewed s) t (log s ++ [EvFetch object_id]))
            | Ok true =>
                (Ok (Next (attempt + 1)),
                 Store (viewed s) t
                   (log s ++ [EvFetch object_id; EvSkipMissing artwork_id]))
            | Ok false =>
                if check_if_exists artwork_id (viewed s)
                then (Ok (Next (attempt + 1)),
                      Store (viewed s) t
                        (log s ++ [EvFetch object_id;
                                   EvSkipDownloaded artwork_id]))
                else if save w t artwork_id image_url
                then (Ok Break,
                      Store (viewed s ++ [d]) t
                        (log s ++ [EvFetch object_id;
                                   EvDownload artwork_id image_url;
                                   EvPrintArtwork d]))
                else (Raise (SystemExit 1),
                      Store (viewed s) t
                        (log s ++ [EvFetch object_id;
                                   EvDownload artwork_id image_url;
                                   EvDownloadError artwork_id]))
            end
        end
    end.
Proof.
  cbv zeta. body_cases; rewrite <- ?app_assoc; simpl; congruence.
Qed.

End Outcomes.

(** Case analysis on a step: the control point, the two tests, and the
    outcome of the body. *)
Ltac body_split :=
  rewrite body_outcomes; cbv zeta;
  repeat match goal with
    | |- context [select_candidate ?b ?l ?a ?r] =>
        destruct (select_candidate b l a r) eqn:?
    | |- context [fetch ?w ?t ?i] => destruct (fetch w t i) eqn:?
    | |- context [image_missing ?v] =>
        destruct (image_missing v) as [[|]|] eqn:?
    | |- context [check_if_exists ?i ?l] =>
        destruct (check_if_exists i l) eqn:?
    | |- context [save ?w ?t ?i ?u] => destruct (save w t i u) eqn:?
    end.

Ltac step_split c :=
  let p := fresh "p" in
  let n := fresh "n" in
  let a := fresh "a" in
  let s := fresh "s" in
  unfold step, finish; destruct c as [p n a s];
  cbn [at_pc count attempt mem]; destruct p;
  [ match goal with
    | |- context [(?x <? ?y)%Z] => destruct (Z.ltb_spec x y)
    end
  | match goal with
    | |- context [Nat.ltb ?x ?y] => destruct (Nat.ltb_spec x y)
    end; [body_split|]
  | | ];
  cbn [at_pc count attempt mem viewed clock log].

(** ** Attempts, requests and records over the whole run *)

Section Invariants.

Variable w : world.
Variable random report : bool.
Variable object_ids : list Z.
Variable total_count : Z.

Local Abbreviation step' := (step w random report object_ids total_count).
Local Abbreviation run' := (run w random report object_ids total_count).
Local Abbreviation main' := (main w random report object_ids total_count).
Local Abbreviation reachable' :=
  (reachable w random report object_ids total_count).

Lemma fetched_snoc l ev :
  fetched (l ++ [ev])
  = fetched l ++ match ev with EvFetch i => [i] | _ => [] end.
Proof. unfold fetched. rewrite omap_app. destruct ev; reflexivity. Qed.

Lemma fetched_app l l' : fetched (l ++ l') = fetched l ++ fetched l'.
Proof. apply omap_app. Qed.

Lemma attempt_invariant_step c :
  attempt_invariant total_count c → attempt_invariant total_count (step' c).
Proof.
  unfold attempt_invariant. step_split c;
    rewrite ?fetched_app, ?length_app; unfold NUM_RETRIES in *;
    cbn [fetched omap length]; simpl; intros (Ha & Hf & Hpc);
    try destruct report; simpl; lia.
Qed.

(** X1.  At every point of every run: a slot has begun at most
    [NUM_RETRIES] attempts, the run at most [NUM_RETRIES] per slot of the
    target count, and the detail requests sent are no more than the
    attempts begun. *)
Theorem attempts_within_budget (c : config) :
  reachable' c →
  attempt c ≤ NUM_RETRIES
  ∧ clock (mem c) ≤ NUM_RETRIES * count c + NUM_RETRIES
  ∧ clock (mem c) ≤ NUM_RETRIES * Z.to_nat total_count
  ∧ length (fetched (log (mem c))) ≤ NUM_RETRIES * Z.to_nat total_count.
Proof.
  intros Hr.
  assert (Hinv : attempt_invariant total_count c).
  { induction Hr; [|apply attempt_invariant_step; assumption].
    unfold attempt_invariant, init, NUM_RETRIES; simpl. lia. }
  destruct Hinv as (Ha & Hf & Hpc). unfold NUM_RETRIES in *.
  destruct (at_pc c); lia.
Qed.

(** X2.  [viewed] only grows, at its end, and by at most one record a
    step: whatever the configuration, after [n] more steps it is the old
    list followed by at most [n] records. *)
Theorem viewed_only_grows (n : nat) (c : config) :
  ∃ added,
    viewed (mem (run' n c)) = viewed (mem c) ++ added ∧ length added ≤ n.
Proof.
  revert c. induction n as [|n IH]; intros c.
  - exists []. rewrite app_nil_r. split; [reflexivity | simpl; lia].
  - destruct (IH (step' c)) as [added [Heq Hlen]]. cbn [run]. rewrite Heq.
    destruct (step_viewed w random report object_ids total_count c)
      as [-> | [artwork ->]].
    + exists added. split; [reflexivity | lia].
    + exists (artwork :: added). rewrite <- app_assoc.
      split; [reflexivity | simpl; lia].
Qed.

Lemma image_missing_false v :
  image_missing v = Ok false → ∃ k, len v = Ok (S k).
Proof.
  destruct v; simpl; try discriminate.
  - destruct (String.length s); simpl; [discriminate | eauto].
  - destruct (length l); simpl; [discriminate | eauto].
Qed.

Lemma choice_Ok_in {A} (seq : list A) r x : choice seq r = Ok x → x ∈ seq.
Proof.
  unfold choice. destruct seq as [|a seq']; [discriminate|].
  intros H. apply index_Ok in H. apply list_elem_of_lookup. eauto.
Qed.

Lemma select_candidate_in_window attempt r object_id :
  attempt < NUM_RETRIES →
  select_candidate random object_ids attempt r = Ok object_id →
  object_id ∈ window random object_ids.
Proof.
  unfold select_candidate, window. intros Ha. destruct random; simpl.
  - apply choice_Ok_in.
  - intros H. apply index_Ok in H. apply list_elem_of_lookup.
    exists attempt. rewrite lookup_take_lt by assumption. exact H.
Qed.

Lemma accepted_step c :
  Forall (accepted w random object_ids) (viewed (mem c)) →
  Forall (accepted w random object_ids) (viewed (mem (step' c))).
Proof.
  step_split c; try (intros Hall; exact Hall).
  intros Hall. apply Forall_app. split; [exact Hall|].
  repeat constructor. eexists _, _. repeat split; try eassumption.
  - eapply select_candidate_in_window; eassumption.
  - apply image_missing_false. assumption.
Qed.

(** X3.  Every record in [viewed], at every point of every run, is the
    response of the API to a request for an identifier the mode can
    select, has an image field of positive length, and was downloaded
    with success. *)
Theorem viewed_records_were_accepted (c : config) :
  reachable' c →
  ∀ d, d ∈ viewed (mem c) →
    ∃ t object_id,
      object_id ∈ window random object_ids
      ∧ fetch w t object_id = Some d
      ∧ (∃ k, len (get d (KStr "primaryImage")) = Ok (S k))
      ∧ save w t (get d (KStr "objectID")) (get d (KStr "primaryImage"))
        = true.
Proof.
  intros Hr.
  assert (Hall : Forall (accepted w random object_ids) (viewed (mem c))).
  { induction Hr; [constructor | apply accepted_step; assumption]. }
  intros d Hd. rewrite Forall_forall in Hall. exact (Hall d Hd).
Qed.

Lemma requests_step c :
  Forall (λ i, i ∈ window random object_ids) (fetched (log (mem c))) →
  Forall (λ i, i ∈ window random object_ids) (fetched (log (mem (step' c)))).
Proof.
  step_split c; try (intros Hall; exact Hall);
    rewrite fetched_app; intros Hall; apply Forall_app;
    (split; [exact Hall|]);
    try destruct report; cbn [fetched omap]; simpl;
    repeat constructor;
    eapply select_candidate_in_window; eassumption.
Qed.

(** X4.  Detail requests are sent only for identifiers of the search
    result the mode can select: its first [NUM_RETRIES] ones in
    non-random mode, its first [FUZZY_SEARCH_THRESHOLD] ones in random
    mode. *)
Theorem requests_within_window (c : config) :
  reachable' c →
  ∀ object_id, object_id ∈ fetched (log (mem c)) →
    object_id ∈ take (if random then 20 else 3) object_ids.
Proof.
  intros Hr.
  assert (Hall : Forall (λ i, i ∈ window random object_ids)
                   (fetched (log (mem c)))).
  { induction Hr; [constructor | apply requests_step; assumption]. }
  intros i Hi. rewrite Forall_forall in Hall. exact (Hall i Hi).
Qed.

Lemma printed_app l l' : printed (l ++ l') = printed l ++ printed l'.
Proof. apply omap_app. Qed.

Lemma printed_step c :
  printed (log (mem c)) = viewed (mem c) →
  printed (log (mem (step' c))) = viewed (mem (step' c)).
Proof.
  step_split c; try (intros Heq; exact Heq);
    rewrite printed_app; intros ->; try destruct report;
    cbn [printed omap]; simpl; rewrite ?app_nil_r; reflexivity.
Qed.

Lemma report_step c :
  (∀ e, at_pc c = Halted e → e = SystemExit 0 →
        last (log (mem c))
        = Some (if report then EvReport (viewed (mem c)) else EvSkipReport)) →
  ∀ e, at_pc (step' c) = Halted e → e = SystemExit 0 →
       last (log (mem (step' c)))
       = Some (if report then EvReport (viewed (mem (step' c)))
               else EvSkipReport).
Proof.
  step_split c; intros Hc x Hx Hexit;
    first
      [ discriminate Hx
      | inversion Hx; subst; discriminate
      | rewrite last_snoc; reflexivity
      | inversion Hx; subst;
        match goal with
        | H : select_candidate _ _ _ _ = Raise _ |- _ =>
            apply select_candidate_raise in H; discriminate H
        | H : image_missing _ = Raise _ |- _ =>
            apply image_missing_raise in H; discriminate H
        end
      | eapply Hc; eassumption ].
Qed.

(** X5.  What [print_artwork] has shown is at every point exactly
    [viewed], in order; and a run that ends through [sys.exit(0)] ends
    its output with the report of exactly those records, or with the
    notice that the report is skipped. *)
Theorem printed_matches_viewed (c : config) :
  reachable' c →
  printed (log (mem c)) = viewed (mem c)
  ∧ (at_pc c = Halted (SystemExit 0) →
     last (log (mem c))
     = Some (if report then EvReport (printed (log (mem c)))
             else EvSkipReport)).
Proof.
  intros Hr.
  assert (Hp : printed (log (mem c)) = viewed (mem c)).
  { induction Hr; [reflexivity | apply printed_step; assumption]. }
  split; [exact Hp|]. rewrite Hp. intros Hpc.
  assert (Hrep : ∀ e, at_pc c = Halted e → e = SystemExit 0 →
            last (log (mem c))
            = Some (if report then EvReport (viewed (mem c))
                    else EvSkipReport)).
  { clear Hp Hpc. induction Hr; [discriminate 1 | apply report_step; assumption]. }
  exact (Hrep _ Hpc eq_refl).
Qed.

Lemma string_keyed_never_found obj_id objects :
  Forall string_keyed objects → check_if_exists obj_id objects = false.
Proof.
  induction 1 as [|obj rest Hobj _ IH]; simpl; [reflexivity|].
  rewrite string_keyed_get_bool by assumption. simpl. exact IH.
Qed.

Lemma no_duplicate_step c :
  (∀ t i d, fetch w t i = Some d → string_keyed d) →
  Forall string_keyed (viewed (mem c))
  ∧ Forall (λ ev, is_skip_downloaded ev = false) (log (mem c)) →
  Forall string_keyed (viewed (mem (step' c)))
  ∧ Forall (λ ev, is_skip_downloaded ev = false) (log (mem (step' c))).
Proof.
  intros Hw. step_split c; intros [Hv Hl];
    try match goal with
      | H : check_if_exists _ _ = true |- _ =>
          rewrite string_keyed_never_found in H by assumption; discriminate H
      end;
    (split;
     [ first [ assumption
             | apply Forall_app; split; [assumption|];
               repeat constructor; eapply Hw; eassumption ]
     | first [ assumption
             | apply Forall_app; split; [assumption|];
               try destruct report; repeat constructor ] ]).
Qed.

(** X7.  When every response of the API is a record with string keys
    only, no run ever takes the branch that skips an artwork already
    downloaded: its notice is never printed, at any point of any run. *)
Theorem duplicate_branch_is_dead (c : config) :
  (∀ t i d, fetch w t i = Some d → string_keyed d) →
  reachable' c →
  Forall string_keyed (viewed (mem c))
  ∧ ∀ artwork_id, EvSkipDownloaded artwork_id ∉ log (mem c).
Proof.
  intros Hw Hr.
  assert (Hinv : Forall string_keyed (viewed (mem c))
                 ∧ Forall (λ ev, is_skip_downloaded ev = false) (log (mem c))).
  { induction Hr; [split; constructor | apply no_duplicate_step; assumption]. }
  destruct Hinv as [Hv Hl]. split; [exact Hv|].
  intros artwork_id Hin. rewrite Forall_forall in Hl.
  specialize (Hl _ Hin). discriminate Hl.
Qed.

End Invariants.

Lemma artwork_has_image n :
  image_missing (get (artwork n) (KStr "primaryImage")) = Ok false.
Proof.
  change (get (artwork n) (KStr "primaryImage")) with (VStr (image_of n)).
  reflexivity.
Qed.

Lemma attempts_within_budget_witness :
  let c := main drawing true false [1; 2; 3; 4]%Z 2 in
  reachable drawing true false [1; 2; 3; 4]%Z 2 c
  ∧ clock (mem c) ≤ NUM_RETRIES * Z.to_nat 2
  ∧ length (fetched (log (mem c))) ≤ NUM_RETRIES * Z.to_nat 2.
Proof.
  intros c.
  assert (Hr : reachable drawing true false [1; 2; 3; 4]%Z 2 c)
    by apply reachable_run.
  split; [exact Hr|].
  destruct (attempts_within_budget drawing true false [1; 2; 3; 4]%Z 2 c Hr)
    as (_ & _ & Hclock & Hreq).
  split; [exact Hclock | exact Hreq].
Defined.

Lemma viewed_records_were_accepted_witness :
  let c := main drawing true false [1; 2; 3; 4]%Z 2 in
  reachable drawing true false [1; 2; 3; 4]%Z 2 c
  ∧ artwork 4 ∈ viewed (mem c)
  ∧ ∃ t object_id,
      object_id ∈ window true [1; 2; 3; 4]%Z
      ∧ fetch drawing t object_id = Some (artwork 4)
      ∧ (∃ k, len (get (artwork 4) (KStr "primaryImage")) = Ok (S k))
      ∧ save drawing t (get (artwork 4) (KStr "objectID"))
          (get (artwork 4) (KStr "primaryImage")) = true.
Proof.
  intros c.
  assert (Hr : reachable drawing true false [1; 2; 3; 4]%Z 2 c)
    by apply reachable_run.
  assert (Hin : artwork 4 ∈ viewed (mem c)).
  { assert (Hv : viewed (mem c) = [artwork 4; artwork 3])
      by (vm_compute; reflexivity).
    rewrite Hv. left. }
  split; [exact Hr|]. split; [exact Hin|].
  exact (viewed_records_were_accepted drawing true false [1; 2; 3; 4]%Z 2 c Hr
           (artwork 4) Hin).
Defined.

Lemma requests_within_window_witness :
  let c := main all_images false false [1; 2; 3; 4]%Z 2 in
  reachable all_images false false [1; 2; 3; 4]%Z 2 c
  ∧ 1%Z ∈ fetched (log (mem c))
  ∧ 1%Z ∈ take 3 [1; 2; 3; 4]%Z.
Proof.
  intros c.
  assert (Hr : reachable all_images false false [1; 2; 3; 4]%Z 2 c)
    by apply reachable_run.
  assert (Hin : 1%Z ∈ fetched (log (mem c))).
  { assert (Hf : fetched (log (mem c)) = [1; 1]%Z) by (vm_compute; reflexivity).
    rewrite Hf. left. }
  split; [exact Hr|]. split; [exact Hin|].
  exact (requests_within_window all_images false false [1; 2; 3; 4]%Z 2 c Hr
           1%Z Hin).
Defined.

Lemma printed_matches_viewed_witness :
  let c := main all_images false true [1; 2; 3; 4]%Z 2 in
  reachable all_images false true [1; 2; 3; 4]%Z 2 c
  ∧ at_pc c = Halted (SystemExit 0)
  ∧ printed (log (mem c)) = viewed (mem c)
  ∧ last (log (mem c)) = Some (EvReport (printed (log (mem c)))).
Proof.
  intros c.
  assert (Hr : reachable all_images false true [1; 2; 3; 4]%Z 2 c)
    by apply reachable_run.
  assert (Hpc : at_pc c = Halted (SystemExit 0)) by (vm_compute; reflexivity).
  destruct (printed_matches_viewed all_images false true [1; 2; 3; 4]%Z 2 c Hr)
    as [Hp Hlast].
  split; [exact Hr|]. split; [exact Hpc|]. split; [exact Hp|].
  exact (Hlast Hpc).
Defined.

Lemma duplicate_branch_is_dead_witness :
  let c := main all_images false false [1; 2; 3; 4]%Z 2 in
  (∀ t i d, fetch all_images t i = Some d → string_keyed d)
  ∧ reachable all_images false false [1; 2; 3; 4]%Z 2 c
  ∧ EvSkipDownloaded (VInt 1) ∉ log (mem c).
Proof.
  intros c.
  assert (Hw : ∀ t i d, fetch all_images t i = Some d → string_keyed d).
  { intros t i d Hd. inversion Hd. apply record_of_string_keyed. }
  assert (Hr : reachable all_images false false [1; 2; 3; 4]%Z 2 c)
    by apply reachable_run.
  split; [exact Hw|]. split; [exact Hr|].
  destruct (duplicate_branch_is_dead all_images false false [1; 2; 3; 4]%Z 2
              c Hw Hr) as [_ Hnever].
  exact (Hnever (VInt 1)).
Defined.

(** ** Runs described in full *)

Section Sequential.

Variable w : world.
Variable report : bool.
Variable first : Z.
Variable others : list Z.
Variable total_count : Z.
Variable d : dict.

Hypothesis first_response : ∀ t, fetch w t first = Some d.
Hypothesis response_keys : string_keyed d.
Hypothesis response_image :
  image_missing (get d (KStr "primaryImage")) = Ok false.
Hypothesis downloads :
  ∀ t, save w t (get d (KStr "objectID")) (get d (KStr "primaryImage")) = true.

Local Abbreviation step' := (step w false report (first :: others) total_count).
Local Abbreviation run' := (run w false report (first :: others) total_count).

(** One slot of such a run: three steps from the test of the outer loop
    back to it, with one more copy of the record. *)
Lemma sequential_slot k a s :
  k < Z.to_nat total_count →
  Forall string_keyed (viewed s) →
  run' 3 (Config OuterTest k a s)
  = Config OuterTest (k + 1) 0
      (Store (viewed s ++ [d]) (S (clock s))
         (log s ++ [EvFetch first;
                    EvDownload (get d (KStr "objectID"))
                      (get d (KStr "primaryImage"));
                    EvPrintArtwork d])).
Proof.
  intros Hk Hv. cbn [run].
  assert (Hlt : (Z.of_nat k <? total_count)%Z = true)
    by (apply Z.ltb_lt; lia).
  unfold step at 3. cbn [at_pc count attempt mem]. rewrite Hlt.
  unfold step at 2. cbn [at_pc count attempt mem].
  change (Nat.ltb 0 NUM_RETRIES) with true. cbv iota.
  rewrite body_outcomes. cbv zeta.
  change (select_candidate false (first :: others) 0 (rand w (S (clock s))))
    with (Ok (A := Z) first).
  cbv beta iota.
  rewrite first_response, response_image, downloads.
  rewrite (string_keyed_never_found _ _ Hv). reflexivity.
Qed.

Lemma sequential_slots m :
  ∀ k a s,
    k + m = Z.to_nat total_count →
    Forall string_keyed (viewed s) →
    let c := run' (3 * m + 1) (Config OuterTest k a s) in
    at_pc c = Halted (SystemExit 0)
    ∧ count c = Z.to_nat total_count
    ∧ viewed (mem c) = viewed s ++ replicate m d
    ∧ fetched (log (mem c)) = fetched (log s) ++ replicate m first
    ∧ clock (mem c) = clock s + m.
Proof.
  induction m as [|m IH]; intros k a s Hk Hv.
  - assert (Hge : (Z.of_nat k <? total_count)%Z = false)
      by (apply Z.ltb_ge; lia).
    cbn [Nat.mul Nat.add run]. unfold step, finish.
    cbn [at_pc count attempt mem]. rewrite Hge.
    cbn [at_pc count attempt mem viewed clock log].
    rewrite fetched_app.
    destruct report; cbn [fetched omap replicate]; simpl;
      rewrite ?app_nil_r; repeat split; lia.
  - replace (3 * S m + 1) with (3 + (3 * m + 1)) by lia.
    rewrite run_add, sequential_slot by (assumption || lia).
    destruct (IH (k + 1) 0
                (Store (viewed s ++ [d]) (S (clock s))
                   (log s ++ [EvFetch first;
                              EvDownload (get d (KStr "objectID"))
                                (get d (KStr "primaryImage"));
                              EvPrintArtwork d])))
      as (Hpc & Hcount & Hviewed & Hfetched & Hclock).
    + lia.
    + cbn [viewed]. apply Forall_app. split; [assumption|].
      repeat constructor. exact response_keys.
    + cbn [viewed clock log] in *. cbv zeta.
      rewrite Hpc, Hcount, Hviewed, Hfetched, Hclock.
      rewrite fetched_app, <- !app_assoc. repeat split; lia.
Qed.

(** X8.  In non-random mode, when the first identifier of the search
    result always gets the same record, with string keys, an image and a
    download that succeeds, every slot accepts that record on its first
    attempt: the run sends one request per slot, all for the first
    identifier, and ends through [sys.exit(0)] with as many copies of the
    record in [viewed] as the target count. *)
Theorem sequential_run_repeats_first :
  let c := main w false report (first :: others) total_count in
  at_pc c = Halted (SystemExit 0)
  ∧ viewed (mem c) = replicate (Z.to_nat total_count) d
  ∧ fetched (log (mem c)) = replicate (Z.to_nat total_count) first
  ∧ clock (mem c) = Z.to_nat total_count.
Proof.
  destruct (sequential_slots (Z.to_nat total_count) 0 0 (Store [] 0 []))
    as (Hpc & _ & Hviewed & Hfetched & Hclock); [lia | constructor |].
  fold init in Hpc, Hviewed, Hfetched, Hclock.
  assert (Hmain : main w false report (first :: others) total_count
                  = run' (3 * Z.to_nat total_count + 1) init).
  { unfold main, enough, NUM_RETRIES.
    replace (Z.to_nat total_count * (3 + 3) + 1)
      with ((3 * Z.to_nat total_count + 1) + 3 * Z.to_nat total_count) by lia.
    rewrite run_add. apply run_halted. eexists. exact Hpc. }
  cbv zeta. rewrite Hmain. repeat split; assumption.
Qed.

End Sequential.

Lemma sequential_run_repeats_first_witness :
  let c := main all_images false false [1; 2; 3; 4]%Z 5 in
  at_pc c = Halted (SystemExit 0)
  ∧ viewed (mem c) = replicate 5 (artwork 1)
  ∧ fetched (log (mem c)) = replicate 5 1%Z.
Proof.
  destruct (sequential_run_repeats_first all_images false 1%Z [2; 3; 4]%Z 5
              (artwork 1) (λ _, eq_refl) (record_of_string_keyed _)
              (artwork_has_image 1) (λ _, eq_refl))
    as (Hpc & Hviewed & Hfetched & _).
  split; [exact Hpc|]. split; [exact Hviewed | exact Hfetched].
Defined.

(** X9.  With a target count of zero or less the run sends no request
    and downloads nothing: one step takes it to [sys.exit(0)] with an
    empty [viewed], after the report (of no record) or its notice. *)
Theorem nothing_to_do (w : world) (random report : bool)
    (object_ids : list Z) (total_count : Z) :
  (total_count ≤ 0)%Z →
  main w random report object_ids total_count
  = Config (Halted (SystemExit 0)) 0 0
      (Store [] 0 [if report then EvReport [] else EvSkipReport]).
Proof.
  intros Hle. unfold main, enough.
  replace (Z.to_nat total_count) with 0 by lia.
  cbn [Nat.mul Nat.add run]. unfold step, finish, init.
  cbn [at_pc count attempt mem viewed clock log].
  destruct (Z.ltb_spec (Z.of_nat 0) total_count) as [Hlt|_]; [lia|].
  reflexivity.
Qed.

Lemma nothing_to_do_witness :
  (0 ≤ 0)%Z
  ∧ main all_images true true [1; 2; 3]%Z 0
    = Config (Halted (SystemExit 0)) 0 0 (Store [] 0 [EvReport []]).
Proof.
  split; [lia|]. apply (nothing_to_do all_images true true [1; 2; 3]%Z 0). lia.
Defined.

(** X10.  On an empty search result with a target count of one or more,
    the first attempt raises [IndexError] in either mode, before any
    request: the process ends there with status 1, whatever the target
    count. *)
Theorem empty_search_result_raises (w : world) (random report : bool)
    (total_count : Z) :
  (1 ≤ total_count)%Z →
  main w random report [] total_count
  = Config (Halted IndexError) 0 0 (Store [] 1 [])
  ∧ exit_status IndexError = 1%Z.
Proof.
  intros Hge. split; [|reflexivity].
  assert (Hrun : run w random report [] total_count 2 init
                 = Config (Halted IndexError) 0 0 (Store [] 1 [])).
  { assert (H1 : step w random report [] total_count init
                 = Config InnerTest 0 0 (Store [] 0 [])).
    { unfold step, init. cbn [at_pc count attempt mem].
      destruct (Z.ltb_spec (Z.of_nat 0) total_count) as [_|Hle];
        [reflexivity | lia]. }
    assert (H2 : step w random report [] total_count
                   (Config InnerTest 0 0 (Store [] 0 []))
                 = Config (Halted IndexError) 0 0 (Store [] 1 [])).
    { unfold step. cbn [at_pc count attempt mem].
      change (Nat.ltb 0 NUM_RETRIES) with true. cbv iota.
      rewrite body_outcomes. cbv zeta.
      assert (Hsel : ∀ r, select_candidate random [] 0 r = Raise IndexError)
        by (intros r; destruct random; reflexivity).
      rewrite Hsel. reflexivity. }
    cbn [run]. rewrite H1, H2. reflexivity. }
  unfold main, enough, NUM_RETRIES.
  replace (Z.to_nat total_count * (3 + 3) + 1)
    with (2 + (Z.to_nat total_count * 6 - 1)) by lia.
  rewrite run_add, Hrun. apply run_halted. eexists. reflexivity.
Qed.

Lemma empty_search_result_raises_witness :
  (1 ≤ 4)%Z
  ∧ main all_images true false [] 4
    = Config (Halted IndexError) 0 0 (Store [] 1 []).
Proof.
  split; [lia|].
  apply (empty_search_result_raises all_images true false 4). lia.
Defined.

(** ** What [check_if_exists] computes *)

Lemma str_eq_id_false obj_id :
  obj_id ≠ VStr "id" → str_eq "id" obj_id = false.
Proof.
  intros Hne. destruct obj_id; simpl; try reflexivity.
  apply bool_decide_eq_false. congruence.
Qed.

(** X11.  For every identifier other than the string ["id"] itself,
    [check_if_exists] answers [True] exactly when some record of the list
    holds a true value under the key [False] (or [0]): the answer does
    not depend on the identifier asked about. *)
Theorem check_if_exists_ignores_identifier (obj_id : value)
    (objects : list dict) :
  obj_id ≠ VStr "id" →
  check_if_exists obj_id objects = true
  ↔ Exists (λ obj, truthy (get obj (KNum 0)) = true) objects.
Proof.
  intros Hne. induction objects as [|obj rest IH]; simpl.
  - split; [discriminate | intros H; inversion H].
  - rewrite (str_eq_id_false obj_id Hne).
    change (key_of_bool false) with (KNum 0).
    destruct (truthy (get obj (KNum 0))) eqn:Hobj.
    + split; [intros _; left; exact Hobj | reflexivity].
    + rewrite IH. split; [intros H; right; exact H|].
      intros H. inversion H; subst; [congruence | assumption].
Qed.

Lemma check_if_exists_ignores_identifier_witness :
  VInt 436535 ≠ VStr "id"
  ∧ (check_if_exists (VInt 436535) [artwork 1; {[ KNum 0 := VInt 5 ]}] = true
     ↔ Exists (λ obj, truthy (get obj (KNum 0)) = true)
         [artwork 1; {[ KNum 0 := VInt 5 ]}]).
Proof.
  split; [discriminate|].
  apply (check_if_exists_ignores_identifier (VInt 436535)). discriminate.
Defined.

(** * [api/met.py] *)

(** ** [get_artwork] *)

Lemma met_choice_list (l : list Z) r :
  Met.choice (VList (VInt <$> l)) r
  = match choice l r with
    | Ok i => Met.Done (VInt i)
    | Raise e => Met.Failed (Met.Builtin e)
    end.
Proof.
  unfold Met.choice, choice, index. simpl. rewrite length_fmap.
  destruct l as [|a l']; [reflexivity|].
  cbn [length Nat.eqb]. unfold Met.item. rewrite list_lookup_fmap.
  destruct ((a :: l') !! (r mod S (length l'))); reflexivity.
Qed.

(** X12.  On a list of integer identifiers the selection inside
    [get_artwork] of [api/met.py] is the selection of the first attempt
    of the loop of [fetch.py]: the same identifier for the same draw, and
    [IndexError] on the same lists. *)
Theorem met_selection_is_first_attempt (random : bool) (object_ids : list Z)
    (r : nat) :
  Met.select_object_id random (VList (VInt <$> object_ids)) r
  = match select_candidate random object_ids 0 r with
    | Ok object_id => Met.Done (VInt object_id)
    | Raise e => Met.Failed (Met.Builtin e)
    end.
Proof.
  unfold Met.select_object_id, select_candidate. destruct random; simpl.
  - unfold FUZZY_SEARCH_THRESHOLD. rewrite <- fmap_take.
    apply met_choice_list.
  - unfold Met.item, index. rewrite list_lookup_fmap.
    destruct (object_ids !! 0); reflexivity.
Qed.

(** X13.  When the search answers with an object whose [objectIDs] is a
    list, a record [get_artwork] returns is the response to the detail
    request for one of the first twenty identifiers of that list in
    random mode, and for the first one otherwise; nothing is printed. *)
Theorem get_artwork_returns_from_window (sv : Met.service)
    (query : option string) (random : bool) (data : dict)
    (object_ids : list value) (record : Met.json) (out : list Met.failure) :
  Met.search sv query = Some (Met.JObject data) →
  data !! KStr "objectIDs" = Some (VList object_ids) →
  Met.get_artwork sv query random = (Ok record, out) →
  out = []
  ∧ ∃ object_id,
      object_id ∈ take (if random then 20 else 1) object_ids
      ∧ Met.details sv object_id = Some record.
Proof.
  intros Hsearch Hids.
  unfold Met.get_artwork, Met.get_artwork_try. rewrite Hsearch. simpl.
  rewrite Hids. simpl. unfold Met.select_object_id. destruct random; simpl.
  - unfold Met.choice. simpl.
    destruct (Nat.eqb (length (take 20 object_ids)) 0); simpl;
      [discriminate 1|].
    destruct (take 20 object_ids !! _) as [x|] eqn:Hx; simpl;
      [|discriminate 1].
    destruct (Met.details sv x) as [j|] eqn:Hj; simpl; [|discriminate 1].
    intros Heq. inversion Heq; subst. split; [reflexivity|].
    exists x. split; [|exact Hj]. apply list_elem_of_lookup. eauto.
  - destruct (object_ids !! 0) as [x|] eqn:Hx; simpl; [|discriminate 1].
    destruct (Met.details sv x) as [j|] eqn:Hj; simpl; [|discriminate 1].
    intros Heq. inversion Heq; subst. split; [reflexivity|].
    exists x. split; [|exact Hj]. apply list_elem_of_lookup.
    exists 0. rewrite lookup_take_lt by lia. exact Hx.
Qed.

Lemma get_artwork_returns_from_window_witness :
  let record :=
    Met.JObject
      (record_of [("objectID", VInt 436535);
                  ("primaryImage", VStr "https://images.metmuseum.org/a.jpg")]) in
  Met.get_artwork gallery (Some "sunflowers"%string) false = (Ok record, [])
  ∧ ∃ object_id,
      object_id ∈ take 1 [VInt 436535; VInt 437980; VInt 11417]
      ∧ Met.details gallery object_id = Some record.
Proof.
  intros record.
  assert (Hrun : Met.get_artwork gallery (Some "sunflowers"%string) false
                 = (Ok record, [])) by (vm_compute; reflexivity).
  split; [exact Hrun|].
  destruct (get_artwork_returns_from_window gallery (Some "sunflowers"%string)
              false
              (record_of [("total", VInt 3);
                          ("objectIDs",
                           VList [VInt 436535; VInt 437980; VInt 11417])])
              [VInt 436535; VInt 437980; VInt 11417] record []
              eq_refl eq_refl Hrun) as [_ Hex].
  exact Hex.
Defined.

(** X14.  A search without result ends the process: when the object the
    search answers has no [objectIDs], a null one or an empty list,
    [get_artwork] raises [SystemExit(1)] in either mode, after printing
    the [KeyError], the [TypeError] or the [IndexError] it caught. *)
Theorem get_artwork_without_result_exits (sv : Met.service)
    (query : option string) (random : bool) (data : dict) :
  Met.search sv query = Some (Met.JObject data) →
  (data !! KStr "objectIDs" = None →
   Met.get_artwork sv query random
   = (Raise (SystemExit 1), [Met.KeyError "objectIDs"]))
  ∧ (data !! KStr "objectIDs" = Some VNone →
     Met.get_artwork sv query random
     = (Raise (SystemExit 1), [Met.Builtin TypeError]))
  ∧ (data !! KStr "objectIDs" = Some (VList []) →
     Met.get_artwork sv query random
     = (Raise (SystemExit 1), [Met.Builtin IndexError])).
Proof.
  intros Hsearch.
  unfold Met.get_artwork, Met.get_artwork_try. rewrite Hsearch. simpl.
  repeat split; intros ->; destruct random; reflexivity.
Qed.

Lemma get_artwork_without_result_exits_witness :
  Met.get_artwork no_match (Some "zzzz"%string) true
  = (Raise (SystemExit 1), [Met.Builtin TypeError]).
Proof.
  destruct (get_artwork_without_result_exits no_match (Some "zzzz"%string) true
              (record_of [("total", VInt 0); ("objectIDs", VNone)]) eq_refl)
    as (_ & Hnull & _).
  apply Hnull. reflexivity.
Defined.

(** ** Paths *)

Lemma string_length_app (s t : string) :
  String.length (s ++ t)%string = String.length s + String.length t.
Proof. induction s as [|c s IH]; simpl; [reflexivity|]. rewrite IH. reflexivity. Qed.

Lemma string_app_inj_r (s1 s2 t : string) :
  (s1 ++ t)%string = (s2 ++ t)%string → s1 = s2.
Proof.
  revert s2. induction s1 as [|c s1 IH]; intros [|c' s2] Heq.
  - reflexivity.
  - apply (f_equal String.length) in Heq.
    rewrite !string_length_app in Heq. simpl in Heq. lia.
  - apply (f_equal String.length) in Heq.
    rewrite !string_length_app in Heq. simpl in Heq. lia.
  - simpl in Heq. inversion Heq; subst. f_equal. apply IH. assumption.
Qed.

Lemma pretty_N_go_no_slash (x : N) (s : string) :
  Met.starts_with_slash s = false →
  Met.starts_with_slash (pretty_N_go x s) = false.
Proof.
  revert s. induction (N.lt_wf_0 x) as [x _ IH]; intros s Hs.
  destruct (decide (x = 0)%N) as [->|Hx].
  - rewrite pretty_N_go_0. exact Hs.
  - rewrite pretty_N_go_step by lia. apply IH.
    + apply N.div_lt; lia.
    + unfold pretty_N_char. repeat case_match; reflexivity.
Qed.

Lemma filename_no_slash (id : Z) : Met.starts_with_slash (Met.filename id) = false.
Proof.
  unfold Met.filename, pretty, pretty_Z. destruct id as [|p|p];
    [reflexivity | | reflexivity].
  unfold pretty, pretty_positive, pretty, pretty_N.
  destruct (decide (N.pos p = 0%N)) as [Hp|_]; [discriminate Hp|].
  pose proof (pretty_N_go_no_slash (N.pos p) "" eq_refl) as Hgo.
  destruct (pretty_N_go (N.pos p) "") as [|c s]; [reflexivity|].
  exact Hgo.
Qed.

Lemma filename_inj (a b : Z) : Met.filename a = Met.filename b → a = b.
Proof.
  unfold Met.filename. intros Heq. apply string_app_inj_r in Heq.
  apply (inj pretty) in Heq. exact Heq.
Qed.

(** The joined path of a file name: the location, a separator when the
    location does not end with one, and the name. *)
Lemma join_filename (location : string) (id : Z) :
  ∃ sep, Met.join location (Met.filename id)
         = (location ++ sep ++ Met.filename id)%string.
Proof.
  unfold Met.join. rewrite filename_no_slash.
  destruct (_ || _); [exists ""%string | exists "/"%string]; reflexivity.
Qed.

Lemma join_sep (location : string) (a b : Z) :
  ∃ sep, Met.join location (Met.filename a)
         = (location ++ sep ++ Met.filename a)%string
       ∧ Met.join location (Met.filename b)
         = (location ++ sep ++ Met.filename b)%string.
Proof.
  unfold Met.join. rewrite !filename_no_slash.
  destruct (_ || _); [exists ""%string | exists "/"%string]; split; reflexivity.
Qed.

Lemma join_not_location (location : string) (id : Z) :
  Met.join location (Met.filename id) ≠ location.
Proof.
  destruct (join_filename location id) as [sep ->]. intros Heq.
  apply (f_equal String.length) in Heq.
  rewrite !string_length_app in Heq. unfold Met.filename in Heq.
  rewrite string_length_app in Heq. simpl in Heq. lia.
Qed.

Lemma join_inj (location : string) (a b : Z) :
  Met.join location (Met.filename a) = Met.join location (Met.filename b) →
  a = b.
Proof.
  destruct (join_sep location a b) as [sep [-> ->]]. intros Heq.
  apply (inj (String.app location)) in Heq.
  apply (inj (String.app sep)) in Heq.
  apply filename_inj. exact Heq.
Qed.

(** ** [download_artwork] *)

Section Download.

Variable h : Met.host.
Variable id : Z.
Variable image_url location : string.

Local Abbreviation path := (Met.join location (Met.filename id)).

Lemma path_exists_true (fs : Met.files) p :
  Met.path_exists fs p = true ↔ is_Some (fs !! p).
Proof. unfold Met.path_exists. apply bool_decide_eq_true. Qed.

Lemma path_exists_false (fs : Met.files) p :
  Met.path_exists fs p = false ↔ fs !! p = None.
Proof.
  unfold Met.path_exists. rewrite bool_decide_eq_false.
  rewrite <- eq_None_not_Some. reflexivity.
Qed.

(** The directory step: nothing when the location exists, [os.mkdir]
    otherwise. *)
Lemma ensure_directory (fs fs1 : Met.files) :
  (if negb (Met.path_exists fs location) then Met.mkdir h fs location
   else Met.Done fs) = Met.Done fs1 →
  (is_Some (fs !! location) ∧ fs1 = fs)
  ∨ (fs !! location = None ∧ location ≠ ""%string
     ∧ Met.may_mkdir h location = true
     ∧ fs1 = <[location := Met.Dir]> fs).
Proof.
  destruct (Met.path_exists fs location) eqn:Hex; simpl.
  - intros Heq. inversion Heq; subst. left.
    split; [apply path_exists_true; exact Hex | reflexivity].
  - unfold Met.mkdir. rewrite Hex.
    destruct (bool_decide (location = ""%string)) eqn:Hempty; simpl;
      [discriminate 1|].
    destruct (Met.may_mkdir h location) eqn:Hmk; simpl; [|discriminate 1].
    intros Heq. inversion Heq; subst. right.
    apply path_exists_false in Hex. apply bool_decide_eq_false in Hempty.
    auto.
Qed.

Lemma ensure_directory_failed (fs : Met.files) e :
  (if negb (Met.path_exists fs location) then Met.mkdir h fs location
   else Met.Done fs) = Met.Failed e →
  fs !! location = None ∧ e = Met.OSError.
Proof.
  destruct (Met.path_exists fs location) eqn:Hex; simpl; [discriminate 1|].
  apply path_exists_false in Hex. unfold Met.mkdir.
  destruct (_ || _); [|discriminate 1].
  intros Heq. inversion Heq. auto.
Qed.

Lemma open_wb_done (fs : Met.files) dir p fs2 :
  Met.open_wb h fs dir p = Met.Done fs2 →
  fs !! dir = Some Met.Dir ∧ fs !! p ≠ Some Met.Dir
  ∧ Met.may_open h p = true ∧ fs2 = <[p := Met.File ""]> fs.
Proof.
  unfold Met.open_wb.
  destruct (fs !! dir) as [[|c]|]; try discriminate 1.
  destruct (fs !! p) as [[|c]|]; try discriminate 1;
    destruct (Met.may_open h p); try discriminate 1;
    intros Heq; inversion Heq; subst; repeat split; congruence.
Qed.

Lemma open_wb_intro (fs : Met.files) dir p :
  fs !! dir = Some Met.Dir → fs !! p ≠ Some Met.Dir →
  Met.may_open h p = true →
  Met.open_wb h fs dir p = Met.Done (<[p := Met.File ""]> fs).
Proof.
  intros Hdir Hp Hopen. unfold Met.open_wb. rewrite Hdir, Hopen.
  destruct (fs !! p) as [[|c]|]; congruence.
Qed.

(** All there is behind a call that returns. *)
Lemma download_returned (fs fs' : Met.files) out :
  Met.download_artwork h id image_url location fs = (Ok tt, fs', out) →
  ∃ content,
    Met.http_get h image_url = Some content
    ∧ (fs !! location = Some Met.Dir
       ∨ (fs !! location = None ∧ location ≠ ""%string
          ∧ Met.may_mkdir h location = true))
    ∧ fs !! path ≠ Some Met.Dir
    ∧ Met.may_open h path = true
    ∧ Met.disk_write h path content = None
    ∧ fs' = <[path := Met.File content]> (<[location := Met.Dir]> fs)
    ∧ out = [].
Proof.
  unfold Met.download_artwork.
  destruct (Met.http_get h image_url) as [content|]; [|discriminate 1].
  destruct (if negb (Met.path_exists fs location) then _ else _)
    as [fs1|e] eqn:Hdir; [|discriminate 1].
  apply ensure_directory in Hdir. cbv zeta.
  destruct (Met.open_wb h fs1 location path) as [fs2|e] eqn:Hopen;
    [|discriminate 1].
  apply open_wb_done in Hopen as (Hloc & Hpath & Hmay & ->).
  destruct (Met.disk_write h path content) eqn:Hwrite; [discriminate 1|].
  intros Heq. inversion Heq; subst. exists content.
  rewrite insert_insert_eq.
  pose proof (join_not_location location id) as Hne.
  destruct Hdir as [[_ ->] | (Hnone & Hnonempty & Hmk & ->)].
  - rewrite (insert_id fs location Met.Dir Hloc). repeat split; auto.
  - rewrite lookup_insert_ne in Hpath by congruence. repeat split; auto.
Qed.

Lemma download_intro (fs : Met.files) content :
  Met.http_get h image_url = Some content →
  fs !! location = Some Met.Dir →
  fs !! path ≠ Some Met.Dir →
  Met.may_open h path = true →
  Met.disk_write h path content = None →
  Met.download_artwork h id image_url location fs
  = (Ok tt, <[path := Met.File content]> fs, []).
Proof.
  intros Hget Hloc Hpath Hopen Hwrite. unfold Met.download_artwork.
  rewrite Hget.
  assert (Hex : Met.path_exists fs location = true)
    by (apply path_exists_true; eauto).
  rewrite Hex. cbv zeta. simpl negb. cbv iota.
  rewrite (open_wb_intro fs location path Hloc Hpath Hopen), Hwrite.
  rewrite insert_insert_eq. reflexivity.
Qed.

End Download.

(** X15.  When [download_artwork] returns, the file [<id>.png] under the
    location holds the body of the response to the image request, the
    location is a directory, every other path is as it was, and nothing
    was printed. *)
Theorem download_writes_the_image (h : Met.host) (id : Z)
    (image_url location : string) (fs fs' : Met.files)
    (out : list Met.failure) :
  Met.download_artwork h id image_url location fs = (Ok tt, fs', out) →
  ∃ content,
    Met.http_get h image_url = Some content
    ∧ fs' !! Met.join location (Met.filename id) = Some (Met.File content)
    ∧ fs' !! location = Some Met.Dir
    ∧ (∀ p, p ≠ location → p ≠ Met.join location (Met.filename id) →
            fs' !! p = fs !! p)
    ∧ out = [].
Proof.
  intros Hrun.
  destruct (download_returned h id image_url location fs fs' out Hrun)
    as (content & Hget & _ & _ & _ & _ & -> & ->).
  pose proof (join_not_location location id) as Hne.
  exists content. repeat split.
  - exact Hget.
  - apply lookup_insert_eq.
  - rewrite lookup_insert_ne by congruence. apply lookup_insert_eq.
  - intros p Hp1 Hp2. rewrite !lookup_insert_ne by congruence. reflexivity.
Qed.

Lemma download_writes_the_image_witness :
  let fs' : Met.files :=
    <[ "out/436535.png"%string := Met.File "image at https://images.metmuseum.org/a.jpg" ]>
      (<[ "out"%string := Met.Dir ]> ∅) in
  Met.download_artwork willing 436535 "https://images.metmuseum.org/a.jpg"
    "out" ∅ = (Ok tt, fs', [])
  ∧ ∃ content,
      fs' !! Met.join "out" (Met.filename 436535) = Some (Met.File content)
      ∧ fs' !! "out"%string = Some Met.Dir.
Proof.
  intros fs'.
  assert (Hrun : Met.download_artwork willing 436535
                   "https://images.metmuseum.org/a.jpg" "out" ∅
                 = (Ok tt, fs', [])) by (vm_compute; reflexivity).
  split; [exact Hrun|].
  destruct (download_writes_the_image willing 436535
              "https://images.metmuseum.org/a.jpg" "out" ∅ fs' [] Hrun)
    as (content & _ & Hfile & Hdir & _).
  exists content. split; [exact Hfile | exact Hdir].
Defined.

(** X16.  Whatever the outcome of [download_artwork], success or
    [exit(1)], it removes nothing: every path that existed still does, a
    directory is still a directory, and only the location and the file
    [<id>.png] under it can have changed. *)
Theorem download_removes_nothing (h : Met.host) (id : Z)
    (image_url location : string) (fs : Met.files) (p : string) :
  let fs' := (Met.download_artwork h id image_url location fs).1.2 in
  (is_Some (fs !! p) → is_Some (fs' !! p))
  ∧ (fs !! p = Some Met.Dir → fs' !! p = Some Met.Dir)
  ∧ (p ≠ location → p ≠ Met.join location (Met.filename id) →
     fs' !! p = fs !! p).
Proof.
  cbv zeta. unfold Met.download_artwork.
  destruct (Met.http_get h image_url) as [content|]; [|simpl; auto].
  destruct (if negb (Met.path_exists fs location) then _ else _)
    as [fs1|e] eqn:Hdir; [|simpl; auto].
  apply ensure_directory in Hdir.
  assert (Hfs1 : (is_Some (fs !! p) → is_Some (fs1 !! p))
                 ∧ (fs !! p = Some Met.Dir → fs1 !! p = Some Met.Dir)
                 ∧ (p ≠ location → fs1 !! p = fs !! p)).
  { destruct Hdir as [[_ ->] | (Hnone & _ & _ & ->)]; [auto|].
    destruct (decide (p = location)) as [->|Hp].
    - rewrite lookup_insert_eq, Hnone. repeat split; eauto; congruence.
    - rewrite lookup_insert_ne by congruence. auto. }
  destruct Hfs1 as (Hsome & Hdirs & Hother). cbv zeta.
  destruct (Met.open_wb h fs1 location _) as [fs2|e] eqn:Hopen;
    [|simpl; auto].
  apply open_wb_done in Hopen as (_ & Hpath & _ & ->).
  assert (Hins : ∀ c,
            (is_Some (fs !! p) →
             is_Some (<[Met.join location (Met.filename id) := Met.File c]>
                        (<[Met.join location (Met.filename id)
                           := Met.File ""]> fs1) !! p))
            ∧ (fs !! p = Some Met.Dir →
               <[Met.join location (Met.filename id) := Met.File c]>
                 (<[Met.join location (Met.filename id)
                    := Met.File ""]> fs1) !! p = Some Met.Dir)
            ∧ (p ≠ location → p ≠ Met.join location (Met.filename id) →
               <[Met.join location (Met.filename id) := Met.File c]>
                 (<[Met.join location (Met.filename id)
                    := Met.File ""]> fs1) !! p = fs !! p)).
  { intros c.
    destruct (decide (p = Met.join location (Met.filename id))) as [->|Hp].
    - rewrite lookup_insert_eq. repeat split; eauto; try congruence.
      intros Hd. apply Hdirs in Hd. congruence.
    - rewrite !lookup_insert_ne by congruence. auto. }
  destruct (Met.disk_write h _ content); simpl; apply Hins.
Qed.

(** X17.  A download that returned can be repeated: the same call on the
    file system it left returns again and leaves that file system as it
    is. *)
Theorem download_twice (h : Met.host) (id : Z) (image_url location : string)
    (fs fs' : Met.files) (out : list Met.failure) :
  Met.download_artwork h id image_url location fs = (Ok tt, fs', out) →
  Met.download_artwork h id image_url location fs' = (Ok tt, fs', []).
Proof.
  intros Hrun.
  destruct (download_returned h id image_url location fs fs' out Hrun)
    as (content & Hget & _ & _ & Hopen & Hwrite & -> & _).
  pose proof (join_not_location location id) as Hne.
  rewrite (download_intro h id image_url location _ content Hget);
    try assumption.
  - rewrite insert_insert_eq. reflexivity.
  - rewrite lookup_insert_ne by congruence. apply lookup_insert_eq.
  - rewrite lookup_insert_eq. discriminate.
Qed.

Lemma download_twice_witness :
  let fs' := (Met.download_artwork willing 436535
                "https://images.metmuseum.org/a.jpg" "out" ∅).1.2 in
  Met.download_artwork willing 436535 "https://images.metmuseum.org/a.jpg"
    "out" ∅ = (Ok tt, fs', [])
  ∧ Met.download_artwork willing 436535 "https://images.metmuseum.org/a.jpg"
      "out" fs' = (Ok tt, fs', []).
Proof.
  intros fs'.
  assert (Hrun : Met.download_artwork willing 436535
                   "https://images.metmuseum.org/a.jpg" "out" ∅
                 = (Ok tt, fs', [])) by (vm_compute; reflexivity).
  split; [exact Hrun|].
  exact (download_twice willing 436535 "https://images.metmuseum.org/a.jpg"
           "out" ∅ fs' [] Hrun).
Defined.

(** X18.  Downloads of different artworks into one location do not
    overwrite each other: the two file names differ, and after the second
    download the file of the first still holds its image. *)
Theorem downloads_do_not_clobber (h : Met.host) (id1 id2 : Z)
    (url1 url2 location : string) (fs fs1 fs2 : Met.files)
    (out1 out2 : list Met.failure) :
  id1 ≠ id2 →
  Met.download_artwork h id1 url1 location fs = (Ok tt, fs1, out1) →
  Met.download_artwork h id2 url2 location fs1 = (Ok tt, fs2, out2) →
  Met.join location (Met.filename id1) ≠ Met.join location (Met.filename id2)
  ∧ ∃ content,
      Met.http_get h url1 = Some content
      ∧ fs2 !! Met.join location (Met.filename id1) = Some (Met.File content).
Proof.
  intros Hne Hrun1 Hrun2.
  assert (Hpaths : Met.join location (Met.filename id1)
                   ≠ Met.join location (Met.filename id2)).
  { intros Heq. apply Hne. eapply join_inj. exact Heq. }
  split; [exact Hpaths|].
  destruct (download_returned h id1 url1 location fs fs1 out1 Hrun1)
    as (content & Hget & _ & _ & _ & _ & -> & _).
  destruct (download_returned h id2 url2 location _ fs2 out2 Hrun2)
    as (content2 & _ & _ & _ & _ & _ & -> & _).
  pose proof (join_not_location location id1) as Hloc.
  exists content. split; [exact Hget|].
  rewrite lookup_insert_ne by congruence.
  rewrite lookup_insert_ne by congruence.
  apply lookup_insert_eq.
Qed.

Lemma downloads_do_not_clobber_witness :
  let fs1 := (Met.download_artwork willing 1 "a" "out" ∅).1.2 in
  let fs2 := (Met.download_artwork willing 2 "b" "out" fs1).1.2 in
  (1 ≠ 2)%Z
  ∧ ∃ content,
      Met.http_get willing "a" = Some content
      ∧ fs2 !! Met.join "out" (Met.filename 1) = Some (Met.File content).
Proof.
  intros fs1 fs2.
  assert (Hne : (1 ≠ 2)%Z) by lia.
  assert (Hrun1 : Met.download_artwork willing 1 "a" "out" ∅ = (Ok tt, fs1, []))
    by (vm_compute; reflexivity).
  assert (Hrun2 : Met.download_artwork willing 2 "b" "out" fs1
                  = (Ok tt, fs2, [])) by (vm_compute; reflexivity).
  split; [exact Hne|].
  destruct (downloads_do_not_clobber willing 1 2 "a" "b" "out" ∅ fs1 fs2 [] []
              Hne Hrun1 Hrun2) as [_ Hex].
  exact Hex.
Defined.

(** X19.  When the location exists but is a regular file,
    [download_artwork] ends the process with [exit(1)] and leaves the
    file system as it was: no directory is made and no file written. *)
Theorem download_into_a_file_exits (h : Met.host) (id : Z)
    (image_url location : string) (fs : Met.files) (content : string) :
  fs !! location = Some (Met.File content) →
  ∃ e, Met.download_artwork h id image_url location fs
       = (Raise (SystemExit 1), fs, [e]).
Proof.
  intros Hloc. unfold Met.download_artwork.
  destruct (Met.http_get h image_url) as [body|]; [|eauto].
  assert (Hex : Met.path_exists fs location = true)
    by (apply path_exists_true; eauto).
  rewrite Hex. simpl negb. cbv iota zeta.
  unfold Met.open_wb. rewrite Hloc. eauto.
Qed.

Lemma download_into_a_file_exits_witness :
  let fs : Met.files := {[ "out"%string := Met.File "notes" ]} in
  fs !! "out"%string = Some (Met.File "notes")
  ∧ ∃ e, Met.download_artwork willing 7 "a" "out" fs
         = (Raise (SystemExit 1), fs, [e]).
Proof.
  intros fs.
  assert (Hloc : fs !! "out"%string = Some (Met.File "notes")) by reflexivity.
  split; [exact Hloc|].
  exact (download_into_a_file_exits willing 7 "a" "out" fs "notes" Hloc).
Defined.
